(** * Adaptive cache and preload engine: service worker and media worker

    A shallow embedding of the two workers of the TV music application:

    - [ServiceWorker]: the fetch-interception layer (request classification,
      the caching strategies, [trimCache]);
    - [MediaWorker]: the preload queue (dedup, dispatch, retry, cancellation,
      network-derived concurrency ceiling).

    Both workers are event driven and single threaded.  An [async] function
    is split where it suspends: the part that runs synchronously up to the
    first [await] on the network is one function, the continuation that runs
    when the network settles is another, and what the network answers is an
    input of the continuation. *)

From Stdlib Require Import ZArith Lia.
From stdpp Require Import base option list strings gmap fin_maps pretty.

Open Scope string_scope.
Open Scope Z_scope.

(** ** Strings: [String.prototype.includes] *)

Fixpoint includes (pat s : string) : bool :=
  String.prefix pat s ||
  match s with
  | EmptyString => false
  | String _ rest => includes pat rest
  end.

(** [x || dflt] on a possibly missing string: the empty string is falsy. *)
Definition or_default (x : option string) (dflt : string) : string :=
  match x with
  | Some s => if String.eqb s EmptyString then dflt else s
  | None => dflt
  end.

(** ** The service worker *)

Module ServiceWorker.

Definition CACHE_VERSION : string := "v1.0.0".
Definition CACHE_PREFIX : string := "tv-music-app".

Inductive Partition := STATIC | DYNAMIC | MEDIA | IMAGES | API.

(** [CACHES]: the name of the cache of each partition. *)
Definition CACHES (p : Partition) : string :=
  CACHE_PREFIX ++
  match p with
  | STATIC => "-static-"
  | DYNAMIC => "-dynamic-"
  | MEDIA => "-media-"
  | IMAGES => "-images-"
  | API => "-api-"
  end ++ CACHE_VERSION.

Definition STATIC_RESOURCES : list string :=
  [ "/"; "/index.html"; "/manifest.json"; "/css/tv-layout.css";
    "/css/animations.css"; "/css/themes/dark.css"; "/css/themes/light.css";
    "/js/app.js"; "/js/player.js"; "/js/navigation.js"; "/js/cache.js";
    "/js/modules/lazy-loader.js"; "/js/modules/virtual-scroll.js";
    "/js/modules/prefetch.js"; "/fonts/main.woff2"; "/images/logo.png";
    "/images/placeholder.jpg"; "/sounds/navigate.mp3"; "/sounds/select.mp3";
    "/offline.html" ].

Inductive Strategy :=
| cacheFirstS | networkFirstS | staleWhileRevalidateS
| networkOnlyS | cacheOnlyS.

(** [CACHE_STRATEGIES], in the order [Object.entries] yields it. *)
Definition CACHE_STRATEGIES : list (string * Strategy) :=
  [ ("/api/", networkFirstS);
    ("/stream/", cacheFirstS);
    ("/images/", cacheFirstS);
    ("/static/", cacheFirstS);
    ("/", staleWhileRevalidateS) ].

(** [CACHE_LIMITS]; the static partition has no entry. *)
Definition CACHE_LIMITS (p : Partition) : option nat :=
  match p with
  | STATIC => None
  | DYNAMIC => Some 50%nat
  | MEDIA => Some 100%nat
  | IMAGES => Some 200%nat
  | API => Some 30%nat
  end.

(** [CACHE_EXPIRATION], in seconds. *)
Definition CACHE_EXPIRATION (p : Partition) : Z :=
  match p with
  | STATIC => 30 * 24 * 60 * 60
  | DYNAMIC => 7 * 24 * 60 * 60
  | MEDIA => 14 * 24 * 60 * 60
  | IMAGES => 30 * 24 * 60 * 60
  | API => 5 * 60
  end.

(** A request, with the [pathname] of its parsed URL. *)
Record Request := mkRequest {
  req_url : string;
  pathname : string;
  destination : string;
  mode : string
}.

Record Response := mkResponse {
  ok : bool;
  status : Z;
  body : string
}.

(** A stored response.  [storedAt] (milliseconds) is the time of the
    [put]; the Cache API keeps it nowhere the worker reads, it is carried
    here to speak about the age of an entry. *)
Record Entry := mkEntry {
  entry_response : Response;
  storedAt : Z
}.

(** A cache keeps its entries in insertion order; the cache storage keeps
    its caches in creation order. *)
Definition Cache : Type := list (string * Entry).
Definition CacheStorage : Type := list (string * Cache).

Definition cache_match (key : string) (c : Cache) : option Entry :=
  snd <$> List.find (λ kv, String.eqb (fst kv) key) c.

Definition cache_keys (c : Cache) : list string := List.map fst c.

Definition cache_delete (key : string) (c : Cache) : Cache :=
  List.filter (λ kv, negb (String.eqb (fst kv) key)) c.

Definition cache_put (key : string) (e : Entry) (c : Cache) : Cache :=
  (cache_delete key c ++ [(key, e)])%list.

Definition has_cache (name : string) (st : CacheStorage) : bool :=
  existsb (λ nc, String.eqb (fst nc) name) st.

(** [caches.open]: creates the cache when there is none of that name. *)
Definition caches_open (name : string) (st : CacheStorage) : CacheStorage :=
  if has_cache name st then st else (st ++ [(name, [])])%list.

Definition cache_of (name : string) (st : CacheStorage) : Cache :=
  default [] (snd <$> List.find (λ nc, String.eqb (fst nc) name) st).

Definition update_cache (name : string) (f : Cache → Cache)
           (st : CacheStorage) : CacheStorage :=
  List.map (λ nc, if String.eqb (fst nc) name then (fst nc, f (snd nc)) else nc) st.

(** [caches.match]: the first hit, in creation order of the caches. *)
Fixpoint caches_match (key : string) (st : CacheStorage) : option Entry :=
  match st with
  | [] => None
  | (_, c) :: rest =>
      match cache_match key c with
      | Some e => Some e
      | None => caches_match key rest
      end
  end.

(** Number of entries of a partition. *)
Definition count (p : Partition) (st : CacheStorage) : nat :=
  length (cache_of (CACHES p) st).

(** The loop of [getStrategyForRequest] over the rule table. *)
Fixpoint first_rule (path : string) (rules : list (string * Strategy))
  : option Strategy :=
  match rules with
  | [] => None
  | (pattern, strategy) :: rest =>
      if includes pattern path then Some strategy else first_rule path rest
  end.

(** The strategies by resource type, after the loop. *)
Definition strategy_by_type (r : Request) : Strategy :=
  if String.eqb (destination r) "image" then cacheFirstS
  else if String.eqb (destination r) "script" || String.eqb (destination r) "style"
  then staleWhileRevalidateS
  else if includes "/api/" (pathname r) then networkFirstS
  else networkFirstS.

(** [getStrategyForRequest] *)
Definition getStrategyForRequest (r : Request) : Strategy :=
  match first_rule (pathname r) CACHE_STRATEGIES with
  | Some strategy => strategy
  | None => strategy_by_type r
  end.

(** [getCacheForRequest]: the partition whose cache is opened. *)
Definition getCacheForRequest (r : Request) : Partition :=
  if includes "/api/" (pathname r) then API
  else if includes "/stream/" (pathname r)
          || String.eqb (destination r) "audio"
          || String.eqb (destination r) "video" then MEDIA
  else if String.eqb (destination r) "image" then IMAGES
  else if existsb (String.eqb (pathname r)) STATIC_RESOURCES then STATIC
  else DYNAMIC.

(** [shouldRefreshCache] *)
Definition shouldRefreshCache (r : Request) : bool :=
  if existsb (String.eqb (pathname r)) STATIC_RESOURCES then false
  else if includes "/api/" (pathname r) then true
  else false.

(** The entry of [CACHE_LIMITS] that [trimCache] picks for a request. *)
Definition trim_key (r : Request) : Partition :=
  if includes "/api/" (pathname r) then API
  else if String.eqb (destination r) "image" then IMAGES
  else if String.eqb (destination r) "audio"
          || String.eqb (destination r) "video" then MEDIA
  else DYNAMIC.

Definition trim_limit (r : Request) : nat :=
  default 0%nat (CACHE_LIMITS (trim_key r)).

(** [trimCache] on one cache: the keys beyond the limit, oldest first,
    are deleted one by one. *)
Definition trim (maxItems : nat) (c : Cache) : Cache :=
  let keys := cache_keys c in
  if (maxItems <? length keys)%nat then
    foldl (λ c' key, cache_delete key c') c (take (length keys - maxItems) keys)
  else c.

Definition trimCache (name : string) (r : Request) (st : CacheStorage)
  : CacheStorage :=
  update_cache name (trim (trim_limit r)) st.

(** What [fetch] does: it answers after some time, or it rejects. *)
Inductive Network :=
| Responds (resp : Response) (latency : Z)
| Fails.

(** What a strategy hands to [respondWith]. *)
Inductive Reply :=
| Respond (resp : Response)
| Undefined            (* a fallback [caches.match] found nothing *)
| NetworkError.        (* the promise rejects *)

Record Served := mkServed {
  reply : Reply;
  storage : CacheStorage;
  refreshing : bool    (* [refreshCacheInBackground] was started *)
}.

(** The JSON body is written here with single quotes. *)
Definition offline_json : Response :=
  mkResponse false 503 "{'error':true,'message':'Offline','cached':false}".
Definition offline_text : Response := mkResponse false 503 "Offline".

Definition reply_of (e : option Entry) : Reply :=
  match e with
  | Some e => Respond (entry_response e)
  | None => Undefined
  end.

(** [getFallbackResponse] *)
Definition getFallbackResponse (r : Request) (st : CacheStorage) : Reply :=
  if String.eqb (mode r) "navigate" then reply_of (caches_match "/offline.html" st)
  else if String.eqb (destination r) "image"
  then reply_of (caches_match "/images/placeholder.jpg" st)
  else if includes "/api/" (pathname r) then Respond offline_json
  else Respond offline_text.

(** [cache.put(request, response)] on the cache [getCacheForRequest]
    opens.  The Cache API refuses a partial response (status 206): the put
    rejects and nothing is stored. *)
Definition store (now : Z) (r : Request) (resp : Response)
           (st : CacheStorage) : CacheStorage :=
  let name := CACHES (getCacheForRequest r) in
  if (status resp =? 206)%Z then caches_open name st
  else update_cache name (cache_put (req_url r) (mkEntry resp now))
                    (caches_open name st).

(** [cacheFirst] *)
Definition cacheFirst (now : Z) (net : Network) (r : Request)
           (st : CacheStorage) : Served :=
  match caches_match (req_url r) st with
  | Some cached =>
      mkServed (Respond (entry_response cached)) st (shouldRefreshCache r)
  | None =>
      match net with
      | Responds resp _ =>
          mkServed (Respond resp)
                   (if ok resp then store now r resp st else st) false
      | Fails => mkServed (getFallbackResponse r st) st false
      end
  end.

(** [refreshCacheInBackground], once its request has settled. *)
Definition refreshCacheInBackground (now : Z) (net : Network) (r : Request)
           (st : CacheStorage) : CacheStorage :=
  match net with
  | Responds resp _ => if ok resp then store now r resp st else st
  | Fails => st
  end.

(** [networkFirst]: the request races a timer of [timeout] ms.  The
    [cache.put] of the response is not awaited: [trimCache] lists the keys
    before the entry lands, and the entry comes on top of what the trim
    keeps. *)
Definition networkFirst (now : Z) (timeout : Z) (net : Network) (r : Request)
           (st : CacheStorage) : Served :=
  let name := CACHES (getCacheForRequest r) in
  let st0 := caches_open name st in
  let from_cache :=
    match caches_match (req_url r) st0 with
    | Some cached => mkServed (Respond (entry_response cached)) st0 false
    | None => mkServed (getFallbackResponse r st0) st0 false
    end in
  match net with
  | Responds resp latency =>
      if (latency <? timeout)%Z then
        if ok resp then
          mkServed (Respond resp) (store now r resp (trimCache name r st0)) false
        else mkServed (Respond resp) st0 false
      else from_cache
  | Fails => from_cache
  end.

(** [staleWhileRevalidate], with the storage as its background request
    leaves it. *)
Definition staleWhileRevalidate (now : Z) (net : Network) (r : Request)
           (st : CacheStorage) : Served :=
  let name := CACHES (getCacheForRequest r) in
  let st0 := caches_open name st in
  let st1 := match net with
             | Responds resp _ => if ok resp then store now r resp st0 else st0
             | Fails => st0
             end in
  match cache_match (req_url r) (cache_of name st0) with
  | Some cached => mkServed (Respond (entry_response cached)) st1 false
  | None =>
      match net with
      | Responds resp _ => mkServed (Respond resp) st1 false
      | Fails => mkServed NetworkError st1 false
      end
  end.

(** Age of an entry in seconds, and the expiry the configuration names. *)
Definition age (now : Z) (e : Entry) : Z := (now - storedAt e) / 1000.

Definition expired (now : Z) (p : Partition) (e : Entry) : bool :=
  (CACHE_EXPIRATION p <? age now e)%Z.

(** The lookup as the specification words it: an entry older than the
    expiry of its partition is absent. *)
Definition get_with_expiry (now : Z) (p : Partition) (key : string)
           (st : CacheStorage) : option Entry :=
  match cache_match key (cache_of (CACHES p) st) with
  | Some e => if expired now p e then None else Some e
  | None => None
  end.

(** The classifier as the specification words it: the first rule whose
    pattern is a prefix of the path. *)
Fixpoint first_prefix_rule (path : string) (rules : list (string * Strategy))
  : option Strategy :=
  match rules with
  | [] => None
  | (pattern, strategy) :: rest =>
      if String.prefix pattern path then Some strategy
      else first_prefix_rule path rest
  end.

Definition classify_by_prefix (r : Request) : Strategy :=
  match first_prefix_rule (pathname r) CACHE_STRATEGIES with
  | Some strategy => strategy
  | None => strategy_by_type r
  end.

(** [networkOnly] *)
Definition networkOnly (net : Network) (r : Request) (st : CacheStorage) : Served :=
  match net with
  | Responds resp _ => mkServed (Respond resp) st false
  | Fails => mkServed (getFallbackResponse r st) st false
  end.

(** [cacheOnly] *)
Definition cacheOnly (r : Request) (st : CacheStorage) : Served :=
  match caches_match (req_url r) st with
  | Some cached => mkServed (Respond (entry_response cached)) st false
  | None => mkServed (getFallbackResponse r st) st false
  end.

(** What the ['fetch'] listener sees of an event: the request, its method
    and the protocol of its URL. *)
Record FetchEvent := mkFetchEvent {
  ev_request : Request;
  ev_method : string;
  ev_protocol : string
}.

(** The ['fetch'] listener.  [None]: the listener returns without
    [respondWith], the browser handles the request. *)
Definition onFetch (now : Z) (net : Network) (ev : FetchEvent)
           (st : CacheStorage) : option Served :=
  let r := ev_request ev in
  if negb (String.eqb (ev_method ev) "GET") then None
  else if String.eqb (ev_protocol ev) "chrome-extension:"
          || String.eqb (ev_protocol ev) "moz-extension:" then None
  else Some
         match getStrategyForRequest r with
         | cacheFirstS => cacheFirst now net r st
         | networkFirstS => networkFirst now 5000 net r st
         | staleWhileRevalidateS => staleWhileRevalidate now net r st
         | networkOnlyS => networkOnly net r st
         | cacheOnlyS => cacheOnly r st
         end.

(** [Object.values(CACHES)] *)
Definition cacheWhitelist : list string :=
  List.map CACHES [STATIC; DYNAMIC; MEDIA; IMAGES; API].

(** [caches.delete] *)
Definition caches_delete (name : string) (st : CacheStorage) : CacheStorage :=
  List.filter (λ nc, negb (String.eqb (fst nc) name)) st.

(** The names [cleanOldCaches] selects: those of this application that are
    not of the current version. *)
Definition old_cache_names (st : CacheStorage) : list string :=
  List.filter (λ name, String.prefix CACHE_PREFIX name
                       && negb (existsb (String.eqb name) cacheWhitelist))
              (List.map fst st).

(** [cleanOldCaches] *)
Definition cleanOldCaches (st : CacheStorage) : CacheStorage :=
  foldl (λ st' name, caches_delete name st') st (old_cache_names st).

(** A rule whose pattern does not occur in the path. *)
Definition misses (path : string) (rule : string * Strategy) : Prop :=
  includes (fst rule) path = false.

(** *** Sample requests and storages *)

Definition png : Response := mkResponse true 200 "png".

Definition cover (i : nat) : string * Entry :=
  ("/images/cover-" ++ pretty i ++ ".png", mkEntry png 0).

(** An images cache at its limit of 200 entries. *)
Definition full_images : CacheStorage :=
  [(CACHES IMAGES, List.map cover (seq 0 200))].

Definition new_cover : Request :=
  mkRequest "/images/cover-new.png" "/images/cover-new.png" "image" "no-cors".

Definition banner : Request :=
  mkRequest "/promo/banner.png" "/promo/banner.png" "image" "no-cors".

Definition nested_api : Request :=
  mkRequest "/v1/api/users" "/v1/api/users" EmptyString "cors".

Definition logo : Request :=
  mkRequest "/images/artist.png" "/images/artist.png" "image" "no-cors".

Definition stale_png : Response := mkResponse true 200 "stored long ago".
Definition fresh_png : Response := mkResponse true 200 "from the network".

Definition old_images : CacheStorage :=
  [(CACHES IMAGES, [("/images/artist.png", mkEntry stale_png 0)])].

(** 31 days, in milliseconds. *)
Definition a_month_later : Z := 31 * 24 * 60 * 60 * 1000.

End ServiceWorker.

(** ** The media worker *)

Module MediaWorker.

(** [CONFIG] *)
Definition RETRY_ATTEMPTS : Z := 3.
Definition RETRY_DELAY : Z := 1000.
Definition PRELOAD_SIZE : Z := 1024 * 1024.

(** The argument of [preloadTrack]; [priority] defaults to ['normal']. *)
Record Track := mkTrack {
  track_id : string;
  track_url : string;
  track_priority : option string
}.

Record QueueItem := mkItem {
  id : string;
  url : string;
  priority : string;
  attempts : Z
}.

(** The value stored in [state.preloading]; [controller] is a reference
    to an [AbortController], an index in the world's [controllers]. *)
Record PreloadInfo := mkInfo {
  startTime : Z;
  progress : Z;
  controller : nat
}.

(** The value stored in [state.preloaded] (the duration estimate, a
    floating point number, is left out). *)
Record PreloadedInfo := mkPreloaded {
  pre_url : string;
  pre_size : Z;
  pre_timestamp : Z
}.

Record State := mkState {
  preloadQueue : list QueueItem;
  preloading : gmap string PreloadInfo;
  preloaded : gmap string PreloadedInfo;
  currentPreloads : Z;
  maxConcurrent : Z;
  networkType : string;
  cacheSize : Z;
  maxCacheSize : Z;
  quality : string
}.

(** [let state = {...}] *)
Definition initial_state : State :=
  {| preloadQueue := [];
     preloading := ∅;
     preloaded := ∅;
     currentPreloads := 0;
     maxConcurrent := 2;
     networkType := "unknown";
     cacheSize := 0;
     maxCacheSize := 500 * 1024 * 1024;
     quality := "auto" |}.

Record JsError := mkError { err_name : string; err_message : string }.

(** What the transport answers to the range request of [fetchAndCache]:
    a response, or a rejection of any promise awaited inside the [try]. *)
Inductive FetchOutcome :=
| Resolved (ok : bool) (status : Z) (statusText : string)
           (contentType : option string) (byteLength : Z)
| Rejected (e : JsError).

Record PreloadResult := mkResult {
  res_size : Z;
  res_contentType : option string;
  res_quality : string
}.

(** A suspended activation of [processQueue]: it awaits [fetchAndCache]. *)
Record Task := mkTask {
  task_item : QueueItem;
  task_finalUrl : string;
  task_quality : string
}.

(** A pending [setTimeout] of the retry branch. *)
Record Timer := mkTimer {
  timer_due : Z;
  timer_delay : Z;
  timer_item : QueueItem
}.

(** Notifications posted to the main thread. *)
Inductive Message :=
| PRELOAD_COMPLETE (trackId : string) (result : PreloadResult)
| PRELOAD_FAILED (trackId : string) (error : string).

(** The worker state with the objects it shares with the event loop:
    the abort flags of the controllers allocated so far, the suspended
    activations (keyed by their controller), the timers, the messages
    posted, the ['media-cache'] of the Cache API ([None]: no such cache)
    and the clock read by [Date.now()]. *)
Record World := mkWorld {
  state : State;
  controllers : list bool;
  fetches : gmap nat Task;
  timers : list Timer;
  outbox : list Message;
  cachesAvailable : bool;
  mediaCache : option (list (string * Z));
  clock : Z
}.

Definition initial_world : World :=
  {| state := initial_state;
     controllers := [];
     fetches := ∅;
     timers := [];
     outbox := [];
     cachesAvailable := true;
     mediaCache := None;
     clock := 0 |}.

Definition with_state (w : World) (s : State) : World :=
  {| state := s; controllers := controllers w; fetches := fetches w;
     timers := timers w; outbox := outbox w;
     cachesAvailable := cachesAvailable w; mediaCache := mediaCache w;
     clock := clock w |}.

Definition post (m : Message) (w : World) : World :=
  {| state := state w; controllers := controllers w; fetches := fetches w;
     timers := timers w; outbox := outbox w ++ [m];
     cachesAvailable := cachesAvailable w; mediaCache := mediaCache w;
     clock := clock w |}.

Definition setTimeout (item : QueueItem) (delay : Z) (w : World) : World :=
  {| state := state w; controllers := controllers w; fetches := fetches w;
     timers := timers w ++ [mkTimer (clock w + delay) delay item];
     outbox := outbox w;
     cachesAvailable := cachesAvailable w; mediaCache := mediaCache w;
     clock := clock w |}.

(** [determineQuality] *)
Definition determineQuality (s : State) : string :=
  if negb (String.eqb (quality s) "auto") then quality s
  else if String.eqb (networkType s) "4g" || String.eqb (networkType s) "wifi" then "high"
  else if String.eqb (networkType s) "3g" then "medium"
  else if String.eqb (networkType s) "2g" || String.eqb (networkType s) "slow-2g" then "low"
  else "medium".

(** [processQueue], up to its [await]: the guards, the dispatch of the
    head item, and the part of [fetchAndCache] that starts the request on
    the signal of the fresh controller. *)
Definition processQueue (w : World) : World :=
  let s := state w in
  if (maxConcurrent s <=? currentPreloads s)%Z then w
  else
    match preloadQueue s with
    | [] => w
    | item :: rest =>
        let c := length (controllers w) in
        let s' :=
          {| preloadQueue := rest;
             preloading := <[id item := mkInfo (clock w) 0 c]> (preloading s);
             preloaded := preloaded s;
             currentPreloads := currentPreloads s + 1;
             maxConcurrent := maxConcurrent s;
             networkType := networkType s;
             cacheSize := cacheSize s;
             maxCacheSize := maxCacheSize s;
             quality := quality s |} in
        let q := determineQuality s' in
        {| state := s';
           controllers := controllers w ++ [false];
           fetches := <[c := mkTask item (url item ++ "?quality=" ++ q) q]> (fetches w);
           timers := timers w;
           outbox := outbox w;
           cachesAvailable := cachesAvailable w;
           mediaCache := mediaCache w;
           clock := clock w |}
    end.

(** [preloadTrack] and what it returns. *)
Inductive PreloadReply :=
| FromCache (rid : string)     (* { id, cached: true, fromCache: true } *)
| InProgress (rid : string)    (* { id, cached: false, inProgress: true } *)
| Queued (rid : string).       (* { id, cached: false, queued: true } *)

Definition enqueue (item : QueueItem) (s : State) : State :=
  {| preloadQueue :=
       if String.eqb (priority item) "high"
       then item :: preloadQueue s          (* unshift *)
       else preloadQueue s ++ [item];       (* push *)
     preloading := preloading s;
     preloaded := preloaded s;
     currentPreloads := currentPreloads s;
     maxConcurrent := maxConcurrent s;
     networkType := networkType s;
     cacheSize := cacheSize s;
     maxCacheSize := maxCacheSize s;
     quality := quality s |}.

Definition preloadTrack (track : Track) (w : World) : World * PreloadReply :=
  let s := state w in
  let tid := track_id track in
  match preloaded s !! tid with
  | Some _ => (w, FromCache tid)
  | None =>
      match preloading s !! tid with
      | Some _ => (w, InProgress tid)
      | None =>
          let item :=
            mkItem tid (track_url track)
                   (default "normal" (track_priority track)) 0 in
          (processQueue (with_state w (enqueue item s)), Queued tid)
      end
  end.

(** The request was started on [preloadInfo.controller.signal].  A
    settlement stands for the arrival of the response and of its body
    ([fetch] and [response.arrayBuffer()]): when the controller was aborted
    before it, the awaited promise rejects with an [AbortError], whatever
    the network would have answered.  The awaits of [fetchAndCache] that
    follow the body ([caches.open], [cache.put]) are taken in one step with
    the settlement, so an abort landing between them is not an order of
    events of this model; there the source rejects nothing and the preload
    completes. *)
Definition abortError : JsError :=
  mkError "AbortError" "The operation was aborted.".

Definition observed (w : World) (c : nat) (o : FetchOutcome) : FetchOutcome :=
  if default false (controllers w !! c) then Rejected abortError else o.

(** Completion of an [async] body: a value or a thrown error. *)
Inductive Completion (A : Type) :=
| Return (a : A)
| Throw (e : JsError).
Arguments Return {A} a.
Arguments Throw {A} e.

(** [cache.put] on the media cache, opened (and created) on demand. *)
Definition media_put (key : string) (size : Z) (w : World) : World :=
  let old := default [] (mediaCache w) in
  {| state := state w; controllers := controllers w; fetches := fetches w;
     timers := timers w; outbox := outbox w;
     cachesAvailable := cachesAvailable w;
     mediaCache :=
       Some (List.filter (λ e, negb (String.eqb (fst e) key)) old
               ++ [(key, size)])%list;
     clock := clock w |}.

(** [fetchAndCache] from the point where [fetchWithTimeout] settles.  A
    cancelled request returns [null] ([Return None]). *)
Definition fetchAndCache_resume (t : Task) (o : FetchOutcome) (w : World)
  : World * Completion (option PreloadResult) :=
  match o with
  | Rejected e =>
      if String.eqb (err_name e) "AbortError" then (w, Return None)
      else (w, Throw e)
  | Resolved ok status statusText contentType byteLength =>
      if negb ok then
        (w, Throw (mkError "Error"
                     ("HTTP " ++ pretty status ++ ": " ++ statusText)))
      else
        let w' := if cachesAvailable w
                  then media_put (task_finalUrl t) byteLength w else w in
        (w', Return (Some (mkResult byteLength contentType (task_quality t))))
  end.

(** Reading [result.size] when [result] is [null]. *)
Definition nullSizeError : JsError :=
  mkError "TypeError" "Cannot read properties of null (reading 'size')".

Definition with_attempts (item : QueueItem) (n : Z) : QueueItem :=
  mkItem (id item) (url item) (priority item) n.

(** The [catch] block of [processQueue]. *)
Definition on_preload_error (item : QueueItem) (e : JsError) (w : World) : World :=
  if (attempts item <? RETRY_ATTEMPTS)%Z then
    let item' := with_attempts item (attempts item + 1) in
    setTimeout item' (RETRY_DELAY * attempts item') w
  else
    post (PRELOAD_FAILED (id item) (err_message e)) w.

(** The body of the [try] after the [await]. *)
Definition on_preload_result (item : QueueItem) (r : option PreloadResult)
           (w : World) : World :=
  match r with
  | Some res =>
      let s := state w in
      let s' :=
        {| preloadQueue := preloadQueue s;
           preloading := preloading s;
           preloaded :=
             <[id item := mkPreloaded (url item) (res_size res) (clock w)]> (preloaded s);
           currentPreloads := currentPreloads s;
           maxConcurrent := maxConcurrent s;
           networkType := networkType s;
           cacheSize := cacheSize s;
           maxCacheSize := maxCacheSize s;
           quality := quality s |} in
      post (PRELOAD_COMPLETE (id item) res) (with_state w s')
  | None => on_preload_error item nullSizeError w
  end.

(** The [finally] block, before its call of [processQueue]. *)
Definition release (tid : string) (w : World) : World :=
  let s := state w in
  with_state w
    {| preloadQueue := preloadQueue s;
       preloading := delete tid (preloading s);
       preloaded := preloaded s;
       currentPreloads := currentPreloads s - 1;
       maxConcurrent := maxConcurrent s;
       networkType := networkType s;
       cacheSize := cacheSize s;
       maxCacheSize := maxCacheSize s;
       quality := quality s |}.

Definition drop_fetch (c : nat) (w : World) : World :=
  {| state := state w; controllers := controllers w;
     fetches := delete c (fetches w);
     timers := timers w; outbox := outbox w;
     cachesAvailable := cachesAvailable w; mediaCache := mediaCache w;
     clock := clock w |}.

(** [processQueue] from its [await] on: the activation that holds
    controller [c] resumes with what the network answered. *)
Definition processQueue_resume (c : nat) (o : FetchOutcome) (w : World) : World :=
  match fetches w !! c with
  | None => w
  | Some t =>
      let item := task_item t in
      let '(w1, r) := fetchAndCache_resume t (observed w c o) (drop_fetch c w) in
      let w2 := match r with
                | Return res => on_preload_result item res w1
                | Throw e => on_preload_error item e w1
                end in
      processQueue (release (id item) w2)
  end.

(** The callback of the retry timer. *)
Definition requeue (item : QueueItem) (w : World) : World :=
  let s := state w in
  processQueue
    (with_state w
       {| preloadQueue := preloadQueue s ++ [item];
          preloading := preloading s;
          preloaded := preloaded s;
          currentPreloads := currentPreloads s;
          maxConcurrent := maxConcurrent s;
          networkType := networkType s;
          cacheSize := cacheSize s;
          maxCacheSize := maxCacheSize s;
          quality := quality s |}).

Definition fire_timer (i : nat) (w : World) : World :=
  match timers w !! i with
  | None => w
  | Some t =>
      if (timer_due t <=? clock w)%Z then
        requeue (timer_item t)
          {| state := state w; controllers := controllers w;
             fetches := fetches w;
             timers := take i (timers w) ++ drop (S i) (timers w);
             outbox := outbox w;
             cachesAvailable := cachesAvailable w;
             mediaCache := mediaCache w;
             clock := clock w |}
      else w
  end.

(** [controller.abort()] *)
Definition abort (c : nat) (w : World) : World :=
  {| state := state w; controllers := <[c := true]> (controllers w);
     fetches := fetches w; timers := timers w; outbox := outbox w;
     cachesAvailable := cachesAvailable w; mediaCache := mediaCache w;
     clock := clock w |}.

(** [cancelPreload] *)
Definition cancelPreload (trackId : string) (w : World) : World :=
  let s := state w in
  let s1 :=
    {| preloadQueue :=
         List.filter (λ item, negb (String.eqb (id item) trackId)) (preloadQueue s);
       preloading := preloading s;
       preloaded := preloaded s;
       currentPreloads := currentPreloads s;
       maxConcurrent := maxConcurrent s;
       networkType := networkType s;
       cacheSize := cacheSize s;
       maxCacheSize := maxCacheSize s;
       quality := quality s |} in
  match preloading s !! trackId with
  | Some info =>
      let w1 := abort (controller info) (with_state w s1) in
      processQueue (release trackId w1)
  | None => with_state w s1
  end.

(** [clearCache] *)
Definition clearCache (w : World) : World :=
  let s := state w in
  {| state :=
       {| preloadQueue := [];
          preloading := ∅;
          preloaded := ∅;
          currentPreloads := currentPreloads s;
          maxConcurrent := maxConcurrent s;
          networkType := networkType s;
          cacheSize := cacheSize s;
          maxCacheSize := maxCacheSize s;
          quality := quality s |};
     controllers := controllers w;
     fetches := fetches w;
     timers := timers w;
     outbox := outbox w;
     cachesAvailable := cachesAvailable w;
     mediaCache := if cachesAvailable w then None else mediaCache w;
     clock := clock w |}.

(** [setQuality] *)
Definition setQuality (q : string) (w : World) : World :=
  let s := state w in
  with_state w
    {| preloadQueue := preloadQueue s;
       preloading := preloading s;
       preloaded := preloaded s;
       currentPreloads := currentPreloads s;
       maxConcurrent := maxConcurrent s;
       networkType := networkType s;
       cacheSize := cacheSize s;
       maxCacheSize := maxCacheSize s;
       quality := q |}.

(** The payload of [SET_NETWORK], as the monitor of the page builds it. *)
Record NetworkInfo := mkNetworkInfo {
  net_type : option string;
  net_effectiveType : option string;
  net_downlink : Z;
  net_rtt : Z;
  net_saveData : bool
}.

(** [setNetworkInfo] *)
Definition setNetworkInfo (info : NetworkInfo) (w : World) : World :=
  let s := state w in
  let nt := or_default (net_type info) "unknown" in
  with_state w
    {| preloadQueue := preloadQueue s;
       preloading := preloading s;
       preloaded := preloaded s;
       currentPreloads := currentPreloads s;
       maxConcurrent :=
         if String.eqb nt "2g" || String.eqb nt "slow-2g" then 1
         else if String.eqb nt "3g" then 2
         else 3;
       networkType := nt;
       cacheSize := cacheSize s;
       maxCacheSize := maxCacheSize s;
       quality := quality s |}.

(** What can happen to the worker: a control message, a settled request,
    a retry timer, the passing of time. *)
Inductive Event :=
| MsgPreloadTrack (t : Track)
| MsgCancelPreload (trackId : string)
| MsgClearCache
| MsgSetQuality (q : string)
| MsgSetNetwork (info : NetworkInfo)
| FetchSettles (c : nat) (o : FetchOutcome)
| TimerFires (i : nat)
| Elapse (ms : Z).

Definition advance (ms : Z) (w : World) : World :=
  {| state := state w; controllers := controllers w; fetches := fetches w;
     timers := timers w; outbox := outbox w;
     cachesAvailable := cachesAvailable w; mediaCache := mediaCache w;
     clock := clock w + Z.max 0 ms |}.

Definition step (w : World) (ev : Event) : World :=
  match ev with
  | MsgPreloadTrack t => fst (preloadTrack t w)
  | MsgCancelPreload trackId => cancelPreload trackId w
  | MsgClearCache => clearCache w
  | MsgSetQuality q => setQuality q w
  | MsgSetNetwork info => setNetworkInfo info w
  | FetchSettles c o => processQueue_resume c o w
  | TimerFires i => fire_timer i w
  | Elapse ms => advance ms w
  end.

Definition run (evs : list Event) (w : World) : World :=
  foldl step w evs.

(** Number of [PRELOAD_FAILED] notifications posted for a track. *)
Definition failures_of (trackId : string) (out : list Message) : nat :=
  length (List.filter (λ m, match m with
                            | PRELOAD_FAILED t _ => String.eqb t trackId
                            | PRELOAD_COMPLETE _ _ => false
                            end) out).

(** The counter agrees with the activations in flight, each of which
    holds a controller that has been allocated. *)
Definition counter_exact (w : World) : Prop :=
  currentPreloads (state w) = Z.of_nat (size (fetches w))
  ∧ ∀ c, is_Some (fetches w !! c) → (c < length (controllers w))%nat.

(** Two worlds with the same counter, activations and controllers. *)
Definition same_books (w w' : World) : Prop :=
  currentPreloads (state w') = currentPreloads (state w)
  ∧ fetches w' = fetches w
  ∧ controllers w' = controllers w.

Definition is_cancel (ev : Event) : bool :=
  match ev with
  | MsgCancelPreload _ => true
  | _ => false
  end.

(** [preloadBatch]: the tracks one after the other, and their replies. *)
Fixpoint preloadBatch (tracks : list Track) (w : World)
  : World * list PreloadReply :=
  match tracks with
  | [] => (w, [])
  | track :: rest =>
      let '(w1, r) := preloadTrack track w in
      let '(w2, rs) := preloadBatch rest w1 in
      (w2, r :: rs)
  end.

(** [cleanupOldCache]: the first quarter of the keys of the media cache,
    rounded down, is deleted key by key. *)
Definition cleanupOldCache (w : World) : World :=
  let c := default [] (mediaCache w) in
  let requests := List.map fst c in
  let toDelete := (length requests / 4)%nat in
  {| state := state w; controllers := controllers w; fetches := fetches w;
     timers := timers w; outbox := outbox w;
     cachesAvailable := cachesAvailable w;
     mediaCache :=
       Some (foldl (λ c' key, List.filter (λ e, negb (String.eqb (fst e) key)) c')
                   c (take toDelete requests));
     clock := clock w |}.

(** [checkCacheSize].  [estimate] is what [navigator.storage] offers:
    [None] when it has no [estimate], else the [usage] of the estimate,
    which may be missing. *)
Definition checkCacheSize (estimate : option (option Z)) (w : World) : World :=
  match estimate with
  | None => w
  | Some usage =>
      let s := state w in
      let size := match usage with
                  | Some u => if (u =? 0)%Z then 0 else u    (* usage || 0 *)
                  | None => 0
                  end in
      let w1 :=
        with_state w
          {| preloadQueue := preloadQueue s;
             preloading := preloading s;
             preloaded := preloaded s;
             currentPreloads := currentPreloads s;
             maxConcurrent := maxConcurrent s;
             networkType := networkType s;
             cacheSize := size;
             maxCacheSize := maxCacheSize s;
             quality := quality s |} in
      if (maxCacheSize s <? size)%Z then cleanupOldCache w1 else w1
  end.

(** The [config] of [INIT]; a field is [None] when it is missing. *)
Record Config := mkConfig {
  cfg_maxConcurrent : option Z;
  cfg_maxCacheSize : option Z;
  cfg_quality : option string
}.

(** [if (x)] on a possibly missing number: zero is falsy. *)
Definition truthy_or (x : option Z) (old : Z) : Z :=
  match x with
  | Some n => if (n =? 0)%Z then old else n
  | None => old
  end.

(** [initialize] *)
Definition initialize (config : Config) (estimate : option (option Z))
           (w : World) : World :=
  let s := state w in
  let w1 :=
    with_state w
      {| preloadQueue := preloadQueue s;
         preloading := preloading s;
         preloaded := preloaded s;
         currentPreloads := currentPreloads s;
         maxConcurrent := truthy_or (cfg_maxConcurrent config) (maxConcurrent s);
         networkType := networkType s;
         cacheSize := cacheSize s;
         maxCacheSize := truthy_or (cfg_maxCacheSize config) (maxCacheSize s);
         quality := or_default (cfg_quality config) (quality s) |} in
  if cachesAvailable w then checkCacheSize estimate w1 else w1.

(** What can happen to the worker, the [INIT] message included. *)
Inductive Control :=
| Worker (ev : Event)
| MsgInit (config : Config) (estimate : option (option Z)).

Definition control_step (w : World) (c : Control) : World :=
  match c with
  | Worker ev => step w ev
  | MsgInit config estimate => initialize config estimate w
  end.

Definition control_run (cs : list Control) (w : World) : World :=
  foldl control_step w cs.

(** An event that cannot change the ceiling: not a [SET_NETWORK], and not an
    [INIT] whose configuration has a truthy [maxConcurrent]. *)
Definition keeps_ceiling (c : Control) : bool :=
  match c with
  | Worker (MsgSetNetwork _) => false
  | Worker _ => true
  | MsgInit config _ =>
      match cfg_maxConcurrent config with
      | Some n => (n =? 0)%Z
      | None => true
      end
  end.

Definition is_cancel_control (c : Control) : bool :=
  match c with
  | Worker (MsgCancelPreload _) => true
  | _ => false
  end.


(** [getStatus] *)
Record Status := mkStatus {
  st_queueLength : nat;
  st_preloading : nat;
  st_preloaded : nat;
  st_currentPreloads : Z;
  st_maxConcurrent : Z;
  st_cacheSize : Z;
  st_maxCacheSize : Z;
  st_networkType : string;
  st_quality : string
}.

Definition getStatus (w : World) : Status :=
  let s := state w in
  {| st_queueLength := length (preloadQueue s);
     st_preloading := size (preloading s);
     st_preloaded := size (preloaded s);
     st_currentPreloads := currentPreloads s;
     st_maxConcurrent := maxConcurrent s;
     st_cacheSize := cacheSize s;
     st_maxCacheSize := maxCacheSize s;
     st_networkType := networkType s;
     st_quality := quality s |}.

(** Two worlds with the same counter and the same ceiling. *)
Definition same_limits (w w' : World) : Prop :=
  currentPreloads (state w') = currentPreloads (state w)
  ∧ maxConcurrent (state w') = maxConcurrent (state w).

(** No item waits while a slot is free. *)
Definition work_conserving (w : World) : Prop :=
  preloadQueue (state w) = [] ∨ maxConcurrent (state w) ≤ currentPreloads (state w).

(** Every track marked as preloading has its request in flight, on the
    controller recorded for it. *)
Definition in_progress_tracked (w : World) : Prop :=
  ∀ tid info,
    preloading (state w) !! tid = Some info →
    (controller info < length (controllers w))%nat
    ∧ ∃ t, fetches w !! controller info = Some t ∧ id (task_item t) = tid.

(** The counter is within the ceiling. *)
Definition within_ceiling (w : World) : Prop :=
  currentPreloads (state w) ≤ maxConcurrent (state w).


Definition is_set_network (ev : Event) : bool :=
  match ev with
  | MsgSetNetwork _ => true
  | _ => false
  end.

(** The attempts of an item are between 0 and [RETRY_ATTEMPTS]; a retry
    timer holds an item that was tried, with the delay of its attempts. *)
Definition attempts_bounded (item : QueueItem) : Prop :=
  0 ≤ attempts item ≤ RETRY_ATTEMPTS.

Definition retry_timer (t : Timer) : Prop :=
  1 ≤ attempts (timer_item t) ≤ RETRY_ATTEMPTS
  ∧ timer_delay t = RETRY_DELAY * attempts (timer_item t).

Definition attempts_invariant (w : World) : Prop :=
  Forall attempts_bounded (preloadQueue (state w))
  ∧ Forall retry_timer (timers w)
  ∧ map_Forall (λ _ t, attempts_bounded (task_item t)) (fetches w).

(** *** Sample tracks and network answers *)

Definition track_a : Track := mkTrack "a" "/media/a.mp3" None.
Definition track_b : Track := mkTrack "b" "/media/b.mp3" None.
Definition track_c : Track := mkTrack "c" "/media/c.mp3" (Some "medium").
Definition track_h1 : Track := mkTrack "h1" "/media/h1.mp3" (Some "high").
Definition track_h2 : Track := mkTrack "h2" "/media/h2.mp3" (Some "high").

Definition item_a (n : Z) : QueueItem := mkItem "a" "/media/a.mp3" "normal" n.

Definition net_down : FetchOutcome :=
  Rejected (mkError "TypeError" "Failed to fetch").

Definition first_megabyte : FetchOutcome :=
  Resolved true 206 "Partial Content" (Some "audio/mpeg") PRELOAD_SIZE.

Definition data_saver_on_4g : NetworkInfo :=
  mkNetworkInfo (Some "4g") (Some "4g") 10 50 true.

Definition cellular_2g : NetworkInfo :=
  mkNetworkInfo (Some "cellular") (Some "2g") 0 2000 false.

(** Track [a] alone, dispatched at once. *)
Definition a_in_flight : World := run [MsgPreloadTrack track_a] initial_world.

(** Tracks [a] and [b] fill the two slots; [c] waits in the queue. *)
Definition c_waiting : World :=
  run [MsgPreloadTrack track_a; MsgPreloadTrack track_b; MsgPreloadTrack track_c]
      initial_world.

(** The request for [a] fails, the retry timer fires, three times over;
    the fourth request is in flight. *)
Definition three_failures : list Event :=
  [ MsgPreloadTrack track_a;
    FetchSettles 0 net_down; Elapse 1000; TimerFires 0;
    FetchSettles 1 net_down; Elapse 2000; TimerFires 0;
    FetchSettles 2 net_down ].

Definition fourth_attempt : list Event :=
  (three_failures ++ [Elapse 3000; TimerFires 0])%list.

(** One failure, then a cancellation while the second request is in
    flight, then the network stays down. *)
Definition cancelled_after_one_failure : list Event :=
  [ MsgPreloadTrack track_a;
    FetchSettles 0 net_down; Elapse 1000; TimerFires 0;
    MsgCancelPreload "a"; FetchSettles 1 first_megabyte ].

End MediaWorker.

(** ** The prefetcher of the page: what it derives from the network info *)

Module Prefetch.

(** The part of [this.config] that [adjustStrategy] writes. *)
Record Config := mkConfig {
  pf_maxConcurrent : Z;
  pf_image : bool;
  pf_audio : bool
}.

(** [adjustStrategy], on the info [getNetworkInfo] builds. *)
Definition adjustStrategy (info : MediaWorker.NetworkInfo) (config : Config)
  : Config :=
  if MediaWorker.net_saveData info then mkConfig 1 false false
  else
    match MediaWorker.net_effectiveType info with
    | Some et =>
        if String.eqb et "4g" then mkConfig 3 true true
        else if String.eqb et "3g" then mkConfig 2 true false
        else if String.eqb et "2g" || String.eqb et "slow-2g"
        then mkConfig 1 false false
        else config
    | None => config
    end.

End Prefetch.

(** * Properties *)

(** ** Substring search *)

Lemma includes_prefix pat s : String.prefix pat s = true → includes pat s = true.
Proof. destruct s; simpl; intros ->; reflexivity. Qed.

Lemma includes_tail pat a s : includes pat s = true → includes pat (String a s) = true.
Proof.
  intros H. change (includes pat (String a s))
    with (String.prefix pat (String a s) || includes pat s).
  rewrite H. apply orb_true_r.
Qed.

(** A pattern occurs in [s] exactly when [s] splits around it. *)
Lemma prefix_split pat s :
  String.prefix pat s = true → ∃ post, s = pat ++ post.
Proof.
  revert s. induction pat as [|a pat IH]; intros s H.
  - exists s. reflexivity.
  - destruct s as [|b s]; simpl in H; [discriminate|].
    destruct (Ascii.ascii_dec a b) as [->|]; [|discriminate].
    destruct (IH s H) as [post ->]. exists post. reflexivity.
Qed.

Lemma includes_split pat s :
  includes pat s = true → ∃ pre post, s = pre ++ pat ++ post.
Proof.
  induction s as [|a s IH]; intros H.
  - destruct pat; [|discriminate]. exists EmptyString, EmptyString. reflexivity.
  - change (String.prefix pat (String a s) || includes pat s = true) in H.
    apply orb_true_iff in H as [H|H].
    + destruct (prefix_split _ _ H) as [post ->].
      exists EmptyString, post. reflexivity.
    + destruct (IH H) as (pre & post & ->).
      exists (String a pre), post. reflexivity.
Qed.

(** ** The service worker *)

Module ServiceWorkerProofs.
Import ServiceWorker.

(** *** Caches *)

Lemma cache_of_update name f st :
  has_cache name st = true →
  cache_of name (update_cache name f st) = f (cache_of name st).
Proof.
  unfold cache_of, has_cache.
  induction st as [|[n c] st IH]; simpl; [discriminate|].
  destruct (String.eqb n name) eqn:E; simpl.
  - rewrite E. reflexivity.
  - rewrite E. exact IH.
Qed.

Lemma has_cache_open name st : has_cache name (caches_open name st) = true.
Proof.
  unfold caches_open. destruct (has_cache name st) eqn:E; [exact E|].
  unfold has_cache. rewrite existsb_app. simpl.
  rewrite String.eqb_refl. apply orb_true_iff. right. reflexivity.
Qed.

Lemma has_cache_update name name' f st :
  has_cache name (update_cache name' f st) = has_cache name st.
Proof.
  unfold has_cache, update_cache.
  induction st as [|[n c] st IH]; simpl; [reflexivity|].
  rewrite IH. destruct (String.eqb n name'); reflexivity.
Qed.

(** Deleting a list of keys one by one is one filter. *)
Lemma delete_all keys (c : Cache) :
  foldl (λ c' key, cache_delete key c') c keys
  = List.filter (λ kv, negb (existsb (String.eqb (fst kv)) keys)) c.
Proof.
  revert c. induction keys as [|k keys IH]; intros c; simpl.
  - induction c as [|kv c IHc]; simpl; [reflexivity|]. congruence.
  - rewrite IH. unfold cache_delete.
    induction c as [|kv c IHc]; simpl; [reflexivity|].
    destruct (String.eqb (fst kv) k); simpl; rewrite IHc; reflexivity.
Qed.

Lemma filter_length_le {A} (f : A → bool) (l : list A) :
  (length (List.filter f l) ≤ length l)%nat.
Proof.
  induction l as [|x l IH]; simpl; [lia|].
  destruct (f x); simpl; lia.
Qed.

Lemma filter_own_keys (c : Cache) keys :
  (∀ kv, In kv c → In (fst kv) keys) →
  List.filter (λ kv, negb (existsb (String.eqb (fst kv)) keys)) c = [].
Proof.
  induction c as [|kv c IH]; simpl; intros H; [reflexivity|].
  assert (existsb (String.eqb (fst kv)) keys = true) as ->.
  { apply existsb_exists. exists (fst kv). split; [auto|apply String.eqb_refl]. }
  simpl. apply IH. auto.
Qed.

(** [trimCache] leaves at most [maxItems] entries, whatever was there. *)
Lemma trim_length maxItems (c : Cache) : (length (trim maxItems c) ≤ maxItems)%nat.
Proof.
  unfold trim, cache_keys. rewrite length_map.
  destruct (Nat.ltb_spec maxItems (length c)) as [Hlt|Hge]; [|lia].
  rewrite delete_all.
  set (k := (length c - maxItems)%nat).
  rewrite <- (take_drop k c) at 1.
  rewrite List.filter_app, filter_own_keys.
  - simpl. etransitivity; [apply filter_length_le|].
    rewrite length_drop. lia.
  - intros kv Hin. rewrite firstn_map. apply in_map. exact Hin.
Qed.

Lemma cache_put_length key e (c : Cache) :
  (length (cache_put key e c) ≤ S (length c))%nat.
Proof.
  unfold cache_put, cache_delete. rewrite length_app. simpl.
  pose proof (filter_length_le (λ kv, negb (String.eqb (fst kv) key)) c). lia.
Qed.

(** The sibling path: a successful [networkFirst] write goes with a trim.
    The trim works on the keys listed before the entry lands, so the cache
    written to ends within the limit [trimCache] derives from the request,
    plus the entry just written. *)
Lemma networkFirst_write_trimmed now timeout resp latency r st :
  ok resp = true → (latency < timeout)%Z →
  (count (getCacheForRequest r)
         (storage (networkFirst now timeout (Responds resp latency) r st))
   ≤ S (trim_limit r))%nat.
Proof.
  intros Hok Hlat. unfold networkFirst, count.
  destruct (Z.ltb_spec latency timeout) as [_|]; [|lia].
  rewrite Hok. simpl. unfold store, trimCache.
  set (name := CACHES (getCacheForRequest r)).
  assert (Hhas : has_cache name
                   (update_cache name (trim (trim_limit r)) (caches_open name st))
                 = true).
  { rewrite has_cache_update. apply has_cache_open. }
  assert (Hopen : caches_open name
                    (update_cache name (trim (trim_limit r)) (caches_open name st))
                  = update_cache name (trim (trim_limit r)) (caches_open name st)).
  { unfold caches_open at 1. rewrite Hhas. reflexivity. }
  rewrite Hopen.
  destruct (status resp =? 206)%Z.
  - rewrite cache_of_update by apply has_cache_open.
    pose proof (trim_length (trim_limit r) (cache_of name (caches_open name st))). lia.
  - rewrite cache_of_update by exact Hhas.
    rewrite cache_of_update by apply has_cache_open.
    etransitivity; [apply cache_put_length|].
    pose proof (trim_length (trim_limit r) (cache_of name (caches_open name st))). lia.
Qed.

(** Where [trimCache] and [getCacheForRequest] agree on the partition (api
    requests, images, audio and video outside [/stream/], dynamic pages),
    that limit is the ceiling [CACHE_LIMITS] gives the partition. *)
Lemma networkFirst_near_ceiling now timeout resp latency r st maxItems :
  ok resp = true → (latency < timeout)%Z →
  trim_key r = getCacheForRequest r →
  CACHE_LIMITS (getCacheForRequest r) = Some maxItems →
  (count (getCacheForRequest r)
         (storage (networkFirst now timeout (Responds resp latency) r st))
   ≤ S maxItems)%nat.
Proof.
  intros Hok Hlat Hkey Hlim.
  pose proof (networkFirst_write_trimmed now timeout resp latency r st Hok Hlat) as H.
  unfold trim_limit in H. rewrite Hkey, Hlim in H. exact H.
Qed.

(** *** The rule table *)

Lemma first_rule_hit path rules pre pattern strategy post :
  rules = (pre ++ (pattern, strategy) :: post)%list →
  Forall (misses path) pre →
  includes pattern path = true →
  first_rule path rules = Some strategy.
Proof.
  intros -> Hpre Hhit. induction Hpre as [|[p s] pre Hmiss _ IH]; simpl.
  - rewrite Hhit. reflexivity.
  - unfold misses in Hmiss. simpl in Hmiss. rewrite Hmiss. exact IH.
Qed.

Lemma first_rule_miss path rules :
  Forall (misses path) rules → first_rule path rules = None.
Proof.
  induction 1 as [|[p s] rules Hmiss _ IH]; simpl; [reflexivity|].
  unfold misses in Hmiss. simpl in Hmiss. rewrite Hmiss. exact IH.
Qed.

(** The path of a parsed http(s) URL starts with a slash, so the last
    rule of the table catches whatever the others let through: the
    strategies by resource type are reached only by a path without any
    slash. *)
Lemma slash_rule_catches_all r :
  String.prefix "/" (pathname r) = true →
  first_rule (pathname r) CACHE_STRATEGIES ≠ None.
Proof.
  intros H. apply includes_prefix in H. unfold CACHE_STRATEGIES. simpl.
  repeat match goal with |- context [if ?b then _ else _] => destruct b end;
    discriminate.
Qed.

(** C1 (the code, at the failing input).  The images cache holds 200
    entries, its configured ceiling; [cacheFirst], the strategy of the
    request, stores one more response and no trim follows, so the
    partition holds 201 entries.  A [staleWhileRevalidate] write does the
    same.  Only [networkFirst] calls [trimCache]
    ([networkFirst_write_trimmed]). *)
Theorem C1_cacheFirst_write_not_trimmed :
  count IMAGES full_images = 200%nat
  ∧ CACHE_LIMITS IMAGES = Some 200%nat
  ∧ getStrategyForRequest new_cover = cacheFirstS
  ∧ getCacheForRequest new_cover = IMAGES
  ∧ count IMAGES (storage (cacheFirst 0 (Responds png 10) new_cover full_images))
    = 201%nat
  ∧ getStrategyForRequest banner = staleWhileRevalidateS
  ∧ count IMAGES
      (storage (staleWhileRevalidate 0 (Responds png 10) banner full_images))
    = 201%nat.
Proof. vm_compute. repeat split; reflexivity. Qed.

(** C6 (counterexample).  The table is not matched by prefix: the path
    [/v1/api/users] has [/api/] inside, not in front, and is served
    network-first, where the first rule that is a prefix of it is [/],
    stale-while-revalidate. *)
Lemma C6_pattern_inside_the_path :
  getStrategyForRequest nested_api = networkFirstS
  ∧ classify_by_prefix nested_api = staleWhileRevalidateS
  ∧ getStrategyForRequest nested_api ≠ classify_by_prefix nested_api.
Proof. vm_compute. repeat split; discriminate. Qed.

(** C6 (amended).  The classifier returns the strategy of the first rule
    of the ordered table whose pattern occurs anywhere in the path; if and
    only if no pattern occurs in it, the resource type decides: an image is
    served cache-first, a script or a style stale-while-revalidate, and
    everything else network-first. *)
Theorem C6_first_rule_by_substring (r : Request) :
  (∀ pre pattern strategy post,
      CACHE_STRATEGIES = (pre ++ (pattern, strategy) :: post)%list →
      Forall (misses (pathname r)) pre →
      includes pattern (pathname r) = true →
      getStrategyForRequest r = strategy)
  ∧ (Forall (misses (pathname r)) CACHE_STRATEGIES →
     getStrategyForRequest r =
       if String.eqb (destination r) "image" then cacheFirstS
       else if String.eqb (destination r) "script"
               || String.eqb (destination r) "style"
       then staleWhileRevalidateS
       else networkFirstS).
Proof.
  split.
  - intros pre pattern strategy post Htable Hpre Hhit.
    unfold getStrategyForRequest.
    rewrite (first_rule_hit _ _ _ _ _ _ Htable Hpre Hhit). reflexivity.
  - intros Hnone. unfold getStrategyForRequest.
    rewrite (first_rule_miss _ _ Hnone). unfold strategy_by_type.
    destruct (String.eqb (destination r) "image"); [reflexivity|].
    destruct (String.eqb (destination r) "script" || String.eqb (destination r) "style");
      [reflexivity|].
    destruct (includes "/api/" (pathname r)); reflexivity.
Qed.

Lemma C6_first_rule_by_substring_witness :
  getStrategyForRequest nested_api = networkFirstS
  ∧ getStrategyForRequest (mkRequest "cover.png" "cover.png" "image" "no-cors")
    = cacheFirstS.
Proof.
  split.
  - apply (proj1 (C6_first_rule_by_substring nested_api)
             [] "/api/" networkFirstS
             [("/stream/", cacheFirstS); ("/images/", cacheFirstS);
              ("/static/", cacheFirstS); ("/", staleWhileRevalidateS)]).
    + reflexivity.
    + constructor.
    + reflexivity.
  - apply (proj2 (C6_first_rule_by_substring
                    (mkRequest "cover.png" "cover.png" "image" "no-cors"))).
    repeat constructor.
Defined.

(** C7 (counterexample).  An image stored 31 days ago is past the 30 days
    of its partition, and [cacheFirst] still answers with it, where on a
    storage without the entry it answers from the network. *)
Lemma C7_expired_entry_is_served :
  expired a_month_later IMAGES (mkEntry stale_png 0) = true
  ∧ get_with_expiry a_month_later IMAGES (req_url logo) old_images = None
  ∧ reply (cacheFirst a_month_later (Responds fresh_png 10) logo old_images)
    = Respond stale_png
  ∧ reply (cacheFirst a_month_later (Responds fresh_png 10) logo
             (update_cache (CACHES IMAGES) (cache_delete (req_url logo)) old_images))
    = Respond fresh_png
  ∧ Respond stale_png ≠ Respond fresh_png.
Proof. vm_compute. repeat split; discriminate. Qed.

(** C7 (amended).  The lookup does not read the age of an entry nor
    [CACHE_EXPIRATION]: whatever the time of the lookup, and so after the
    expiry as before it, [cacheFirst] answers with the entry stored under
    the request. *)
Theorem C7_lookup_ignores_age now net r st e :
  caches_match (req_url r) st = Some e →
  reply (cacheFirst now net r st) = Respond (entry_response e).
Proof. intros H. unfold cacheFirst. rewrite H. reflexivity. Qed.

Lemma C7_lookup_ignores_age_witness :
  caches_match (req_url logo) old_images = Some (mkEntry stale_png 0)
  ∧ expired a_month_later IMAGES (mkEntry stale_png 0) = true
  ∧ reply (cacheFirst a_month_later Fails logo old_images) = Respond stale_png.
Proof.
  split; [reflexivity|]. split; [reflexivity|].
  apply (C7_lookup_ignores_age a_month_later Fails logo old_images
           (mkEntry stale_png 0)).
  reflexivity.
Defined.

End ServiceWorkerProofs.

(** ** The media worker *)

Module MediaWorkerProofs.
Import MediaWorker.

(** *** What [processQueue] leaves alone *)

Lemma processQueue_timers w : timers (processQueue w) = timers w.
Proof.
  unfold processQueue. destruct (_ <=? _)%Z; [reflexivity|].
  destruct (preloadQueue (state w)); reflexivity.
Qed.

Lemma processQueue_outbox w : outbox (processQueue w) = outbox w.
Proof.
  unfold processQueue. destruct (_ <=? _)%Z; [reflexivity|].
  destruct (preloadQueue (state w)); reflexivity.
Qed.

(** At the ceiling, or on an empty queue, nothing is dispatched. *)
Lemma processQueue_saturated w :
  maxConcurrent (state w) ≤ currentPreloads (state w) → processQueue w = w.
Proof.
  intros H. unfold processQueue.
  destruct (Z.leb_spec (maxConcurrent (state w)) (currentPreloads (state w)));
    [reflexivity|lia].
Qed.

(** Below the ceiling the head of the queue is dispatched: it leaves the
    queue, the counter goes up by one, and a request is started for it on
    a fresh controller. *)
Lemma processQueue_dispatches_head w item rest :
  currentPreloads (state w) < maxConcurrent (state w) →
  preloadQueue (state w) = item :: rest →
  let w' := processQueue w in
  preloadQueue (state w') = rest
  ∧ currentPreloads (state w') = currentPreloads (state w) + 1
  ∧ controller <$> preloading (state w') !! id item = Some (length (controllers w))
  ∧ task_item <$> fetches w' !! length (controllers w) = Some item.
Proof.
  intros Hlt Hq. unfold processQueue.
  destruct (Z.leb_spec (maxConcurrent (state w)) (currentPreloads (state w)));
    [lia|].
  rewrite Hq. simpl. rewrite !lookup_insert_eq. auto.
Qed.

(** An identifier in flight is not queued again. *)
Lemma preloadTrack_in_flight track w info :
  preloaded (state w) !! track_id track = None →
  preloading (state w) !! track_id track = Some info →
  preloadTrack track w = (w, InProgress (track_id track)).
Proof. intros H1 H2. unfold preloadTrack. rewrite H1, H2. reflexivity. Qed.


Lemma fetchAndCache_throws t o w w1 e :
  fetchAndCache_resume t o w = (w1, Throw e) → w1 = w.
Proof.
  unfold fetchAndCache_resume. destruct o as [ok st txt ct len|e'].
  - destruct ok; simpl; intros H; inversion H; reflexivity.
  - destruct (String.eqb _ _); intros H; inversion H; reflexivity.
Qed.

(** *** The in-flight counter, cancellation apart *)

Create HintDb books.

Section Counter.

Local Hint Unfold same_books : books.

Lemma same_books_counter w w' :
  same_books w w' → counter_exact w → counter_exact w'.
Proof.
  intros (Hc & Hf & Hk) [H1 H2]. split.
  - rewrite Hc, Hf. exact H1.
  - rewrite Hf, Hk. exact H2.
Qed.

Lemma processQueue_counter w : counter_exact w → counter_exact (processQueue w).
Proof.
  intros [Hc Hk]. unfold processQueue.
  destruct (_ <=? _)%Z; [by split|].
  destruct (preloadQueue (state w)) as [|item rest]; [by split|].
  split; simpl.
  - rewrite map_size_insert_None.
    + rewrite Hc. lia.
    + destruct (fetches w !! length (controllers w)) eqn:E; [|done].
      assert (length (controllers w) < length (controllers w))%nat; [|lia].
      apply Hk. eauto.
  - intros c [Heq | H]%lookup_insert_is_Some'; rewrite length_app; simpl.
    + subst. lia.
    + apply Hk in H. lia.
Qed.

Lemma fetchAndCache_books t o w w1 r :
  fetchAndCache_resume t o w = (w1, r) → same_books w w1.
Proof.
  unfold fetchAndCache_resume. destruct o as [ok st txt ct len|e].
  - destruct ok; simpl; [destruct (cachesAvailable w)|];
      intros H; inversion H; autounfold with books; auto.
  - destruct (String.eqb _ _); intros H; inversion H;
      autounfold with books; auto.
Qed.

Lemma on_preload_error_books item e w : same_books w (on_preload_error item e w).
Proof.
  unfold on_preload_error. destruct (_ <? _)%Z; autounfold with books; auto.
Qed.

Lemma on_preload_result_books item r w : same_books w (on_preload_result item r w).
Proof.
  destruct r; [autounfold with books; auto|apply on_preload_error_books].
Qed.

(** A settled request gives its slot back exactly once, whatever the
    outcome. *)
Lemma processQueue_resume_counter c o w :
  counter_exact w → counter_exact (processQueue_resume c o w).
Proof.
  intros Hinv. unfold processQueue_resume.
  destruct (fetches w !! c) as [t|] eqn:E; [|exact Hinv].
  destruct (fetchAndCache_resume _ _ _) as [w1 r] eqn:F.
  apply fetchAndCache_books in F as (Fc & Ff & Fk).
  set (w2 := match r with
             | Return res => on_preload_result (task_item t) res w1
             | Throw e => on_preload_error (task_item t) e w1
             end).
  assert (same_books w1 w2) as (Gc & Gf & Gk).
  { subst w2. destruct r; [apply on_preload_result_books|apply on_preload_error_books]. }
  apply processQueue_counter. destruct Hinv as [Hc Hk]. split; simpl.
  - rewrite Gc, Fc, Gf, Ff. simpl. rewrite Hc.
    rewrite <- (insert_delete_id (fetches w) c t E) at 1.
    rewrite map_size_insert_None by apply lookup_delete_eq. lia.
  - rewrite Gf, Ff, Gk, Fk. simpl.
    intros c' [_ H]%lookup_delete_is_Some. auto.
Qed.

Lemma step_counter w ev :
  is_cancel ev = false → counter_exact w → counter_exact (step w ev).
Proof.
  intros Hev Hinv. destruct ev; try discriminate; simpl.
  - unfold preloadTrack.
    destruct (preloaded (state w) !! _); [exact Hinv|].
    destruct (preloading (state w) !! _); [exact Hinv|].
    simpl. apply processQueue_counter.
    revert Hinv. apply same_books_counter. autounfold with books. auto.
  - revert Hinv. apply same_books_counter. autounfold with books. auto.
  - revert Hinv. apply same_books_counter. autounfold with books. auto.
  - revert Hinv. apply same_books_counter. autounfold with books. auto.
  - apply processQueue_resume_counter, Hinv.
  - unfold fire_timer. destruct (timers w !! i); [|exact Hinv].
    destruct (_ <=? _)%Z; [|exact Hinv].
    apply processQueue_counter.
    revert Hinv. apply same_books_counter. autounfold with books. auto.
  - revert Hinv. apply same_books_counter. autounfold with books. auto.
Qed.

(** As long as nothing is cancelled, the counter is the number of
    requests in flight, and so never negative. *)
Lemma counter_exact_without_cancel evs w :
  forallb (λ ev, negb (is_cancel ev)) evs = true →
  counter_exact w → counter_exact (run evs w).
Proof.
  revert w. induction evs as [|ev evs IH]; intros w Hevs Hinv; [exact Hinv|].
  simpl in Hevs. apply andb_true_iff in Hevs as [Hev Hevs].
  apply negb_true_iff in Hev.
  apply (IH _ Hevs). apply step_counter; assumption.
Qed.

Lemma counter_exact_initially : counter_exact initial_world.
Proof.
  split; [reflexivity|]. intros c [t H]. simpl in H.
  rewrite lookup_empty in H. discriminate.
Qed.

End Counter.

(** C2 (the code, at the failing input).  With two requests in flight,
    track [c] waits in the queue; [preloadTrack] looks for its id in
    [preloaded] and [preloading] only, answers [queued] a second time and
    the queue holds two items of that id. *)
Theorem C2_queued_id_is_queued_again :
  List.map id (preloadQueue (state c_waiting)) = ["c"]
  ∧ preloading (state c_waiting) !! "c" = None
  ∧ snd (preloadTrack track_c c_waiting) = Queued "c"
  ∧ List.map id (preloadQueue (state (fst (preloadTrack track_c c_waiting))))
    = ["c"; "c"].
Proof. vm_compute. repeat split; reflexivity. Qed.

(** C3 (the code, at the failing input).  [cancelPreload] decrements the
    counter, and the [finally] of the cancelled activation decrements it
    again when the aborted request settles: one dispatch, two decrements,
    and the counter is -1 with nothing in flight.  Without a cancellation
    the counter stays exact ([counter_exact_without_cancel]). *)
Theorem C3_cancel_decrements_twice :
  let cancelled := step a_in_flight (MsgCancelPreload "a") in
  let settled := step cancelled (FetchSettles 0 first_megabyte) in
  currentPreloads (state a_in_flight) = 1
  ∧ size (fetches a_in_flight) = 1%nat
  ∧ currentPreloads (state cancelled) = 0
  ∧ size (fetches cancelled) = 1%nat
  ∧ currentPreloads (state settled) = -1
  ∧ size (fetches settled) = 0%nat
  ∧ counter_exact a_in_flight
  ∧ ¬ counter_exact settled.
Proof.
  intros cancelled settled.
  repeat (split; [vm_compute; reflexivity|]). split.
  - apply (counter_exact_without_cancel [MsgPreloadTrack track_a]);
      [reflexivity|apply counter_exact_initially].
  - intros [H _]. vm_compute in H. discriminate H.
Qed.

(** C4 (the code, at the failing input).  The cancelled [fetchAndCache]
    returns [null], reading [result.size] throws, and the [catch] of
    [processQueue] handles the cancellation like a failure: the attempt is
    counted and a retry timer requeues the item; with the attempts used up
    a [PRELOAD_FAILED] is posted for the cancelled item. *)
Theorem C4_cancellation_handled_as_failure :
  let cancelled := run [MsgCancelPreload "a"; FetchSettles 0 first_megabyte]
                       a_in_flight in
  let retried := run [Elapse 1000; TimerFires 0] cancelled in
  let last_cancelled :=
    run (fourth_attempt ++ [MsgCancelPreload "a"; FetchSettles 3 first_megabyte])
        initial_world in
  let cancelled_once :=
    run (cancelled_after_one_failure
           ++ [Elapse 2000; TimerFires 0; FetchSettles 2 net_down;
               Elapse 3000; TimerFires 0; FetchSettles 3 net_down])
        initial_world in
  timers cancelled = [mkTimer 1000 1000 (item_a 1)]
  ∧ task_item <$> fetches retried !! 1%nat = Some (item_a 1)
  ∧ controller <$> preloading (state retried) !! "a" = Some 1%nat
  ∧ outbox last_cancelled
    = [PRELOAD_FAILED "a" "Cannot read properties of null (reading 'size')"]
  ∧ outbox cancelled_once = [PRELOAD_FAILED "a" "Failed to fetch"].
Proof. vm_compute. repeat split; reflexivity. Qed.

(** C5 (counterexample).  After its third failure the item has
    [attempts = 3], no failure notification has been posted, and a third
    retry is scheduled. *)
Lemma C5_third_failure_is_retried :
  let w := run three_failures initial_world in
  failures_of "a" (outbox w) = 0%nat
  ∧ timers w = [mkTimer 6000 3000 (item_a 3)]
  ∧ failures_of "a" (outbox w) ≠ 1%nat.
Proof. vm_compute. repeat split; discriminate. Qed.

(** C5 (amended).  When the request of an item fails, the item is retried
    as long as [attempts < 3]: [attempts] goes up by one and a timer of
    [1000 * attempts] ms (the new count) requeues it, and nothing is
    posted.  A failure with [attempts = 3], the fourth of the item, posts
    exactly one [PRELOAD_FAILED] and schedules no retry. *)
Theorem C5_three_retries_then_failed w c t o e w1 :
  fetches w !! c = Some t →
  fetchAndCache_resume t (observed w c o) (drop_fetch c w) = (w1, Throw e) →
  let item := task_item t in
  let w' := processQueue_resume c o w in
  (attempts item < RETRY_ATTEMPTS →
     timers w' = (timers w
                  ++ [mkTimer (clock w + RETRY_DELAY * (attempts item + 1))
                              (RETRY_DELAY * (attempts item + 1))
                              (with_attempts item (attempts item + 1))])%list
     ∧ outbox w' = outbox w)
  ∧ (RETRY_ATTEMPTS ≤ attempts item →
     timers w' = timers w
     ∧ outbox w' = (outbox w ++ [PRELOAD_FAILED (id item) (err_message e)])%list).
Proof.
  intros Hc Hthrow item w'. subst w'. unfold processQueue_resume.
  rewrite Hc, Hthrow. apply fetchAndCache_throws in Hthrow as ->.
  rewrite processQueue_timers, processQueue_outbox.
  fold item. unfold on_preload_error.
  split; intros Hn.
  - destruct (Z.ltb_spec (attempts item) RETRY_ATTEMPTS); [|lia].
    split; reflexivity.
  - destruct (Z.ltb_spec (attempts item) RETRY_ATTEMPTS); [lia|].
    split; reflexivity.
Qed.

Lemma C5_three_retries_then_failed_witness :
  timers (processQueue_resume 0 net_down a_in_flight)
  = [mkTimer 1000 1000 (item_a 1)]
  ∧ outbox (processQueue_resume 3 net_down (run fourth_attempt initial_world))
    = [PRELOAD_FAILED "a" "Failed to fetch"].
Proof.
  split.
  - refine (proj1 (proj1 (C5_three_retries_then_failed a_in_flight 0
              (mkTask (item_a 0) "/media/a.mp3?quality=medium" "medium")
              net_down (mkError "TypeError" "Failed to fetch")
              (drop_fetch 0 a_in_flight) _ _) _)).
    + reflexivity.
    + reflexivity.
    + unfold RETRY_ATTEMPTS. simpl. lia.
  - refine (proj2 (proj2 (C5_three_retries_then_failed
              (run fourth_attempt initial_world) 3
              (mkTask (item_a 3) "/media/a.mp3?quality=medium" "medium")
              net_down (mkError "TypeError" "Failed to fetch")
              (drop_fetch 3 (run fourth_attempt initial_world)) _ _) _)).
    + reflexivity.
    + reflexivity.
    + unfold RETRY_ATTEMPTS. simpl. lia.
Defined.

(** C8 (counterexample).  Two high-priority tracks enqueued one after the
    other while both slots are taken wait in the reverse order, and the
    second one is dispatched first when a slot frees. *)
Lemma C8_high_priority_newest_first :
  let busy := run [MsgPreloadTrack track_a; MsgPreloadTrack track_b] initial_world in
  let waiting := run [MsgPreloadTrack track_h1; MsgPreloadTrack track_h2] busy in
  let freed := step waiting (FetchSettles 0 first_megabyte) in
  List.map id (preloadQueue (state waiting)) = ["h2"; "h1"]
  ∧ id <$> (task_item <$> fetches freed !! 2%nat) = Some "h2"
  ∧ List.map id (preloadQueue (state freed)) = ["h1"]
  ∧ List.map id (preloadQueue (state waiting)) ≠ ["h1"; "h2"].
Proof. vm_compute. repeat split; discriminate. Qed.

(** C8 (amended).  A track of priority [high] is inserted at the head of
    the queue, in front of everything that waits, earlier high-priority
    items included; a track of any other priority is appended at the tail;
    and a dispatch takes the head of the queue. *)
Theorem C8_high_to_the_head_others_to_the_tail track w :
  preloaded (state w) !! track_id track = None →
  preloading (state w) !! track_id track = None →
  let item := mkItem (track_id track) (track_url track)
                     (default "normal" (track_priority track)) 0 in
  let queued := if String.eqb (priority item) "high"
                then item :: preloadQueue (state w)
                else (preloadQueue (state w) ++ [item])%list in
  let w' := fst (preloadTrack track w) in
  (maxConcurrent (state w) ≤ currentPreloads (state w) →
     preloadQueue (state w') = queued)
  ∧ (currentPreloads (state w) < maxConcurrent (state w) →
     ∃ head rest,
       queued = head :: rest
       ∧ preloadQueue (state w') = rest
       ∧ task_item <$> fetches w' !! length (controllers w) = Some head).
Proof.
  intros Hpre Hing item queued w'. subst w'. unfold preloadTrack.
  rewrite Hpre, Hing. simpl. fold item.
  set (w0 := with_state w (enqueue item (state w))).
  assert (Hq : preloadQueue (state w0) = queued) by reflexivity.
  split; intros Hc.
  - rewrite processQueue_saturated; [exact Hq|exact Hc].
  - assert (∃ head rest, queued = head :: rest) as (head & rest & Heq).
    { subst queued. destruct (String.eqb _ _); [eauto|].
      destruct (preloadQueue (state w)); simpl; eauto. }
    exists head, rest. split; [exact Heq|].
    rewrite Heq in Hq.
    destruct (processQueue_dispatches_head w0 head rest Hc Hq) as (H1 & _ & _ & H4).
    split; [exact H1|exact H4].
Qed.

Lemma C8_high_to_the_head_others_to_the_tail_witness :
  List.map id (preloadQueue (state (fst (preloadTrack track_h1 c_waiting))))
  = ["h1"; "c"]
  ∧ List.map id (preloadQueue (state (fst (preloadTrack track_h1 a_in_flight))))
    = [].
Proof.
  split.
  - rewrite (proj1 (C8_high_to_the_head_others_to_the_tail track_h1 c_waiting
                      eq_refl eq_refl)).
    + reflexivity.
    + apply Z.leb_le. reflexivity.
  - destruct (proj2 (C8_high_to_the_head_others_to_the_tail track_h1 a_in_flight
                       eq_refl eq_refl)) as (head & rest & Heq & -> & _).
    + apply Z.ltb_lt. reflexivity.
    + inversion Heq. reflexivity.
Defined.

(** C9.  [setNetworkInfo] reads the
    [type] of the info and nothing else: with data saving on and a 4g link
    the ceiling is 3, and for a cellular link whose effective class is 2g it
    is 3 as well.  [adjustStrategy], which derives the ceiling of the
    prefetcher from the same info, gives 1 in both cases. *)
Lemma C9_data_saver_not_read :
  maxConcurrent (state (setNetworkInfo data_saver_on_4g initial_world)) = 3
  ∧ maxConcurrent (state (setNetworkInfo cellular_2g initial_world)) = 3
  ∧ maxConcurrent (state (setNetworkInfo data_saver_on_4g initial_world)) ≠ 1
  ∧ (∀ config,
       Prefetch.pf_maxConcurrent (Prefetch.adjustStrategy data_saver_on_4g config) = 1
       ∧ Prefetch.pf_maxConcurrent (Prefetch.adjustStrategy cellular_2g config) = 1).
Proof.
  split; [reflexivity|]. split; [reflexivity|]. split; [discriminate|].
  intros config. split; reflexivity.
Qed.

(** What [setNetworkInfo] derives: the ceiling follows the [type] of the
    pushed info alone ([unknown] when missing or empty), 1 for [2g] and
    [slow-2g], 2 for [3g], 3 for anything else. *)
Lemma setNetworkInfo_ceiling_from_type info w :
  let nt := or_default (net_type info) "unknown" in
  let ceiling := maxConcurrent (state (setNetworkInfo info w)) in
  networkType (state (setNetworkInfo info w)) = nt
  ∧ (nt = "2g" ∨ nt = "slow-2g" → ceiling = 1)
  ∧ (nt = "3g" → ceiling = 2)
  ∧ (nt ≠ "2g" → nt ≠ "slow-2g" → nt ≠ "3g" → ceiling = 3)
  ∧ (∀ et dl rtt sd,
        maxConcurrent
          (state (setNetworkInfo (mkNetworkInfo (net_type info) et dl rtt sd) w))
        = ceiling).
Proof.
  intros nt ceiling. subst ceiling. simpl. fold nt.
  split; [reflexivity|].
  split; [intros [-> | ->]; reflexivity|].
  split; [intros ->; reflexivity|].
  split; [|reflexivity].
  intros H2 Hs H3.
  destruct (String.eqb_spec nt "2g"); [contradiction|].
  destruct (String.eqb_spec nt "slow-2g"); [contradiction|].
  destruct (String.eqb_spec nt "3g"); [contradiction|]. reflexivity.
Qed.

(** C10.  [clearCache] empties the queue and the two maps and deletes the
    media cache (where the Cache API exists); the counter, the ceiling,
    the network type, the quality and the cache sizes keep their values,
    and no controller is aborted: the abort flags, the suspended
    activations, the timers and the posted messages are as before. *)
Theorem C10_clearCache_frame w :
  let w' := clearCache w in
  preloadQueue (state w') = []
  ∧ preloading (state w') = ∅
  ∧ preloaded (state w') = ∅
  ∧ (cachesAvailable w = true → mediaCache w' = None)
  ∧ currentPreloads (state w') = currentPreloads (state w)
  ∧ maxConcurrent (state w') = maxConcurrent (state w)
  ∧ networkType (state w') = networkType (state w)
  ∧ quality (state w') = quality (state w)
  ∧ maxCacheSize (state w') = maxCacheSize (state w)
  ∧ cacheSize (state w') = cacheSize (state w)
  ∧ controllers w' = controllers w
  ∧ fetches w' = fetches w
  ∧ timers w' = timers w
  ∧ outbox w' = outbox w.
Proof.
  simpl. repeat split. intros ->. reflexivity.
Qed.

Lemma C10_clearCache_frame_witness :
  let w := step a_in_flight (FetchSettles 0 first_megabyte) in
  mediaCache w = Some [("/media/a.mp3?quality=medium", PRELOAD_SIZE)]
  ∧ mediaCache (clearCache w) = None.
Proof.
  split; [reflexivity|].
  apply (proj1 (proj2 (proj2 (proj2
           (C10_clearCache_frame
              (step a_in_flight (FetchSettles 0 first_megabyte))))))).
  reflexivity.
Defined.

End MediaWorkerProofs.

(** * Further properties of the two workers *)

(** ** Lists of keyed entries *)

Section Keyed.
Context {A : Type}.
Implicit Types (l : list (string * A)) (keys : list string).

Lemma filter_keeps_all (f : string * A → bool) l :
  (∀ kv, In kv l → f kv = true) → List.filter f l = l.
Proof.
  induction l as [|kv l IH]; simpl; intros H; [reflexivity|].
  rewrite (H kv) by auto. f_equal. apply IH. auto.
Qed.

Lemma filter_drops_all (f : string * A → bool) l :
  (∀ kv, In kv l → f kv = false) → List.filter f l = [].
Proof.
  induction l as [|kv l IH]; simpl; intros H; [reflexivity|].
  rewrite (H kv) by auto. apply IH. auto.
Qed.

Lemma existsb_eqb_In k keys : existsb (String.eqb k) keys = true ↔ In k keys.
Proof.
  rewrite existsb_exists. split.
  - intros (k' & Hin & Heq). apply String.eqb_eq in Heq. subst. exact Hin.
  - intros Hin. exists k. split; [exact Hin|apply String.eqb_refl].
Qed.

(** Deleting the keys of the [n] oldest entries one by one leaves the
    others, when no key occurs twice. *)
Lemma delete_oldest n l :
  NoDup (List.map fst l) →
  foldl (λ l' key, List.filter (λ kv, negb (String.eqb (fst kv) key)) l')
        l (take n (List.map fst l))
  = drop n l.
Proof.
  intros Hnd.
  assert (Hfold : ∀ keys l0,
    foldl (λ l' key, List.filter (λ kv, negb (String.eqb (fst kv) key)) l') l0 keys
    = List.filter (λ kv, negb (existsb (String.eqb (fst kv)) keys)) l0).
  { induction keys as [|k keys IH]; intros l0; simpl.
    - symmetry. apply filter_keeps_all. reflexivity.
    - rewrite IH. induction l0 as [|kv l0 IHl]; simpl; [reflexivity|].
      destruct (String.eqb (fst kv) k); simpl; rewrite IHl; reflexivity. }
  rewrite Hfold, firstn_map.
  set (f := λ kv : string * A,
              negb (existsb (String.eqb (fst kv)) (List.map fst (take n l)))).
  transitivity (List.filter f (take n l ++ drop n l)); [by rewrite take_drop|].
  rewrite <- (take_drop n l) in Hnd.
  rewrite map_app in Hnd. apply NoDup_app in Hnd as (_ & Hdisj & _).
  subst f.
  rewrite List.filter_app, filter_drops_all, filter_keeps_all; [reflexivity| |].
  - intros kv Hin. apply negb_true_iff.
    destruct (existsb _ _) eqn:E; [|reflexivity].
    apply existsb_eqb_In in E. exfalso.
    apply (Hdisj (fst kv)); apply list_elem_of_In; [exact E|].
    apply in_map. exact Hin.
  - intros kv Hin. apply negb_false_iff, existsb_eqb_In, in_map. exact Hin.
Qed.

(** Deleting a list of keys one by one is one filter. *)
Lemma delete_keys_filter keys l :
  foldl (λ l' key, List.filter (λ kv, negb (String.eqb (fst kv) key)) l') l keys
  = List.filter (λ kv, negb (existsb (String.eqb (fst kv)) keys)) l.
Proof.
  revert l. induction keys as [|k keys IH]; intros l; simpl.
  - symmetry. apply filter_keeps_all. reflexivity.
  - rewrite IH. induction l as [|kv l IHl]; simpl; [reflexivity|].
    destruct (String.eqb (fst kv) k); simpl; rewrite IHl; reflexivity.
Qed.

(** A search is not disturbed by a filter that keeps what it looks for. *)
Lemma find_filter (f g : string * A → bool) l :
  (∀ kv, f kv = true → g kv = true) →
  List.find f (List.filter g l) = List.find f l.
Proof.
  intros Hfg. induction l as [|kv l IH]; simpl; [reflexivity|].
  destruct (g kv) eqn:G; simpl.
  - rewrite IH. reflexivity.
  - destruct (f kv) eqn:F; [|exact IH].
    rewrite (Hfg kv F) in G. discriminate.
Qed.

Lemma find_app_keyed (f : string * A → bool) l1 l2 :
  List.find f (l1 ++ l2)
  = match List.find f l1 with Some x => Some x | None => List.find f l2 end.
Proof.
  induction l1 as [|kv l1 IH]; simpl; [reflexivity|].
  destruct (f kv); [reflexivity|exact IH].
Qed.

(** Replacing the entry of a key keeps the keys unique. *)
Lemma put_keeps_NoDup key (x : A) l :
  NoDup (List.map fst l) →
  NoDup (List.map fst
           (List.filter (λ kv, negb (String.eqb (fst kv) key)) l ++ [(key, x)])).
Proof.
  intros Hnd. rewrite map_app. simpl. apply NoDup_app. split; [|split].
  - induction l as [|kv l IH]; simpl; [constructor|].
    inversion Hnd as [|? ? Hnotin Hnd']; subst.
    destruct (String.eqb (fst kv) key); simpl; [auto|].
    constructor; [|auto].
    intros Hin. apply Hnotin.
    apply list_elem_of_In in Hin. apply list_elem_of_In.
    apply in_map_iff in Hin as (kv' & Hk & Hin).
    apply filter_In in Hin as [Hin _]. apply in_map_iff. eauto.
  - intros k Hin Hk. apply list_elem_of_In in Hin.
    apply in_map_iff in Hin as (kv & <- & Hin).
    apply filter_In in Hin as [_ Hne].
    apply negb_true_iff, String.eqb_neq in Hne.
    apply list_elem_of_singleton in Hk. contradiction.
  - apply NoDup_singleton.
Qed.

End Keyed.

(** ** The service worker *)

Module ServiceWorkerExtras.
Import ServiceWorker.

(** X1.  When no key occurs twice in a cache, [trimCache] keeps exactly its
    [maxItems] newest entries, in their order; a cache within the limit is
    left as it is. *)
Theorem X1_trim_keeps_the_newest maxItems (c : Cache) :
  NoDup (cache_keys c) →
  trim maxItems c = drop (length c - maxItems) c.
Proof.
  intros Hnd. unfold trim, cache_keys. rewrite length_map.
  destruct (Nat.ltb_spec maxItems (length c)) as [Hlt|Hge].
  - apply (delete_oldest (length c - maxItems) c Hnd).
  - replace (length c - maxItems)%nat with 0%nat by lia. reflexivity.
Qed.

Lemma X1_trim_keeps_the_newest_witness :
  let e := mkEntry png 0 in
  trim 2 [("/a", e); ("/b", e); ("/c", e)] = [("/b", e); ("/c", e)].
Proof.
  intros e.
  apply (X1_trim_keeps_the_newest 2 [("/a", e); ("/b", e); ("/c", e)]).
  compute_done.
Defined.

(** *** Writing and reading one cache *)

Lemma cache_match_after_delete key (c : Cache) :
  cache_match key (cache_delete key c) = None.
Proof.
  unfold cache_match, cache_delete.
  induction c as [|kv c IH]; simpl; [reflexivity|].
  destruct (String.eqb (fst kv) key) eqn:E; simpl; [exact IH|].
  rewrite E. exact IH.
Qed.

Lemma cache_match_put_same key e (c : Cache) :
  cache_match key (cache_put key e c) = Some e.
Proof.
  pose proof (cache_match_after_delete key c) as H.
  unfold cache_match, cache_put in *. rewrite find_app_keyed.
  destruct (List.find _ (cache_delete key c)); [discriminate|].
  simpl. rewrite String.eqb_refl. reflexivity.
Qed.

Lemma cache_match_put_other key key' e (c : Cache) :
  key' ≠ key → cache_match key' (cache_put key e c) = cache_match key' c.
Proof.
  intros Hne. unfold cache_match, cache_put, cache_delete.
  rewrite find_app_keyed. simpl.
  destruct (String.eqb_spec key key') as [->|_]; [contradiction|].
  rewrite find_filter.
  - destruct (List.find _ c); reflexivity.
  - intros kv Hkv. apply String.eqb_eq in Hkv. apply negb_true_iff.
    apply String.eqb_neq. congruence.
Qed.

Lemma cache_put_NoDup key e (c : Cache) :
  NoDup (cache_keys c) → NoDup (cache_keys (cache_put key e c)).
Proof.
  intros Hnd. unfold cache_keys, cache_put, cache_delete.
  rewrite map_app. simpl. apply NoDup_app. split; [|split].
  - induction c as [|kv c IH]; simpl; [constructor|].
    inversion Hnd as [|? ? Hnotin Hnd']; subst.
    destruct (String.eqb (fst kv) key); simpl; [auto|].
    constructor; [|auto].
    intros Hin. apply Hnotin.
    apply list_elem_of_In in Hin. apply list_elem_of_In.
    apply in_map_iff in Hin as (kv' & Hk & Hin).
    apply filter_In in Hin as [Hin _]. apply in_map_iff. eauto.
  - intros k Hin Hk. apply list_elem_of_In in Hin.
    apply in_map_iff in Hin as (kv & <- & Hin).
    apply filter_In in Hin as [_ Hne].
    apply negb_true_iff, String.eqb_neq in Hne.
    apply list_elem_of_singleton in Hk. contradiction.
  - apply NoDup_singleton.
Qed.

(** An entry written by [cache.put] is what a lookup of its key
    returns, lookups of other keys are as before, the entry is the newest of
    the cache (the last one a trim deletes), even when it replaces an older
    entry of that key, and keys stay unique. *)
Theorem put_then_match key e (c : Cache) :
  cache_match key (cache_put key e c) = Some e
  ∧ (∀ key', key' ≠ key →
       cache_match key' (cache_put key e c) = cache_match key' c)
  ∧ last (cache_put key e c) = Some (key, e)
  ∧ (NoDup (cache_keys c) → NoDup (cache_keys (cache_put key e c))).
Proof.
  split; [apply cache_match_put_same|].
  split; [intros key'; apply cache_match_put_other|].
  split; [apply last_snoc|apply cache_put_NoDup].
Qed.

Lemma put_then_match_example :
  let old := mkEntry stale_png 0 in
  let new := mkEntry fresh_png 5 in
  let c := cache_put "/a" new [("/a", old); ("/b", old)] in
  cache_match "/b" c = Some old ∧ NoDup (cache_keys c).
Proof.
  intros old new c. split.
  - apply (proj1 (proj2 (put_then_match "/a" new [("/a", old); ("/b", old)]))).
    discriminate.
  - apply (proj2 (proj2 (proj2
             (put_then_match "/a" new [("/a", old); ("/b", old)])))).
    compute_done.
Defined.

(** *** The cache storage *)


Lemma caches_match_open key name st :
  caches_match key (caches_open name st) = caches_match key st.
Proof.
  unfold caches_open. destruct (has_cache name st); [reflexivity|].
  induction st as [|[n c] st IH]; simpl; [reflexivity|].
  destruct (cache_match key c); [reflexivity|exact IH].
Qed.

Lemma cache_of_open name name' st :
  cache_of name (caches_open name' st) = cache_of name st.
Proof.
  unfold caches_open. destruct (has_cache name' st); [reflexivity|].
  unfold cache_of. rewrite find_app_keyed.
  destruct (List.find _ st); [reflexivity|]. simpl.
  destruct (String.eqb name' name); reflexivity.
Qed.

Lemma getFallbackResponse_open r name st :
  getFallbackResponse r (caches_open name st) = getFallbackResponse r st.
Proof. unfold getFallbackResponse. rewrite !caches_match_open. reflexivity. Qed.




(** X3.  Whatever the strategy the listener picks, a request the network
    fails, or answers with a response that is not [ok], leaves the content
    of every cache as it was. *)
Theorem X3_only_ok_responses_are_stored now net ev st served :
  onFetch now net ev st = Some served →
  (net = Fails ∨ ∃ resp latency, net = Responds resp latency ∧ ok resp = false) →
  ∀ name, cache_of name (storage served) = cache_of name st.
Proof.
  intros Hserved Hnet name. unfold onFetch in Hserved.
  destruct (negb _); [discriminate|]. destruct (_ || _); [discriminate|].
  inversion Hserved as [Heq]. clear Hserved Heq.
  destruct Hnet as [->|(resp & latency & -> & Hok)];
    destruct (getStrategyForRequest (ev_request ev));
    unfold cacheFirst, networkFirst, staleWhileRevalidate, networkOnly, cacheOnly;
    rewrite ?Hok;
    repeat match goal with
           | |- context [match ?x with _ => _ end] => destruct x
           end;
    simpl; rewrite ?cache_of_open; reflexivity.
Qed.

Lemma X3_only_ok_responses_are_stored_witness :
  count IMAGES
    (storage (cacheFirst 0 (Responds offline_text 10) new_cover full_images))
  = 200%nat.
Proof.
  unfold count.
  rewrite (X3_only_ok_responses_are_stored 0 (Responds offline_text 10)
             (mkFetchEvent new_cover "GET" "https:") full_images
             (cacheFirst 0 (Responds offline_text 10) new_cover full_images)).
  - reflexivity.
  - reflexivity.
  - right. exists offline_text, 10. split; reflexivity.
Defined.







(** X5.  For a path that starts with a slash, as the path of every parsed
    http(s) URL does, the strategy depends on the path alone: network-first
    when it contains [/api/], else cache-first when it contains [/stream/],
    [/images/] or [/static/], else stale-while-revalidate.  The resource
    type is not looked at, and network-only and cache-only are never
    chosen. *)
Theorem X5_strategy_of_a_url_path r :
  String.prefix "/" (pathname r) = true →
  getStrategyForRequest r =
    if includes "/api/" (pathname r) then networkFirstS
    else if includes "/stream/" (pathname r)
            || includes "/images/" (pathname r)
            || includes "/static/" (pathname r) then cacheFirstS
    else staleWhileRevalidateS.
Proof.
  intros Hslash. apply includes_prefix in Hslash.
  unfold getStrategyForRequest, CACHE_STRATEGIES. simpl. rewrite Hslash.
  destruct (includes "/api/" (pathname r)); [reflexivity|].
  destruct (includes "/stream/" (pathname r)); [reflexivity|].
  destruct (includes "/images/" (pathname r)); [reflexivity|].
  destruct (includes "/static/" (pathname r)); reflexivity.
Qed.

Lemma X5_strategy_of_a_url_path_witness :
  getStrategyForRequest banner = staleWhileRevalidateS.
Proof. apply (X5_strategy_of_a_url_path banner). reflexivity. Defined.

(** *** Old caches *)

Lemma cleanOldCaches_filter st :
  cleanOldCaches st
  = List.filter (λ nc, negb (existsb (String.eqb (fst nc)) (old_cache_names st))) st.
Proof. apply (delete_keys_filter (old_cache_names st) st). Qed.

Lemma old_cache_name st name :
  In name (List.map fst st) →
  existsb (String.eqb name) (old_cache_names st)
  = String.prefix CACHE_PREFIX name
    && negb (existsb (String.eqb name) cacheWhitelist).
Proof.
  intros Hin. unfold old_cache_names.
  set (old := λ n, String.prefix CACHE_PREFIX n
                   && negb (existsb (String.eqb n) cacheWhitelist)).
  change (existsb (String.eqb name) (List.filter old (List.map fst st)) = old name).
  destruct (old name) eqn:E.
  - apply existsb_eqb_In, filter_In. auto.
  - apply not_true_is_false. intros F.
    apply existsb_eqb_In, filter_In in F as [_ F]. congruence.
Qed.

Lemma whitelisted p : existsb (String.eqb (CACHES p)) cacheWhitelist = true.
Proof. destruct p; reflexivity. Qed.

(** X6.  [cleanOldCaches] deletes the caches whose name starts with the
    application prefix and is not one of the five current names, and only
    those: a cache of another name and the five current caches stay, with
    their content. *)
Theorem X6_cleanOldCaches_keeps_current st :
  (∀ name c,
      In (name, c) (cleanOldCaches st)
      ↔ In (name, c) st
        ∧ (String.prefix CACHE_PREFIX name = false ∨ In name cacheWhitelist))
  ∧ (∀ p, cache_of (CACHES p) (cleanOldCaches st) = cache_of (CACHES p) st).
Proof.
  rewrite cleanOldCaches_filter. split.
  - intros name c. rewrite filter_In. simpl.
    split; intros [Hin H]; (split; [exact Hin|]);
      rewrite (old_cache_name st name) in * by (apply in_map_iff; exists (name, c); auto).
    + apply negb_true_iff, andb_false_iff in H as [H|H]; [auto|].
      right. apply negb_false_iff, existsb_eqb_In in H. exact H.
    + apply negb_true_iff, andb_false_iff.
      destruct H as [H|H]; [auto|].
      right. apply negb_false_iff, existsb_eqb_In. exact H.
  - intros p. unfold cache_of. rewrite find_filter; [reflexivity|].
    intros [n c] Hn. simpl in *. apply String.eqb_eq in Hn. subst n.
    apply negb_true_iff.
    destruct (existsb _ (old_cache_names st)) eqn:F; [|reflexivity].
    apply existsb_eqb_In, filter_In in F as [_ F].
    rewrite whitelisted, andb_false_r in F. discriminate.
Qed.

Lemma X6_cleanOldCaches_keeps_current_witness :
  cleanOldCaches
    [("tv-music-app-images-v0.9.0", []); ("fonts", []);
     (CACHES IMAGES, [("/images/artist.png", mkEntry stale_png 0)])]
  = [("fonts", []); (CACHES IMAGES, [("/images/artist.png", mkEntry stale_png 0)])]
  ∧ In ("fonts", [])
       (cleanOldCaches [("tv-music-app-images-v0.9.0", []); ("fonts", ([] : Cache))]).
Proof.
  split; [reflexivity|].
  apply (proj1 (X6_cleanOldCaches_keeps_current
                  [("tv-music-app-images-v0.9.0", []); ("fonts", [])])).
  split; [right; left; reflexivity|left; reflexivity].
Defined.



(** X8.  When the network fails, or answers after the timeout,
    [networkFirst] stores nothing and answers with the entry any cache holds
    for the request, else with the fallback response; an answer that comes
    late is handled like no answer. *)
Theorem X8_networkFirst_offline now timeout net r st :
  (net = Fails ∨ ∃ resp latency, net = Responds resp latency ∧ timeout ≤ latency) →
  let served := networkFirst now timeout net r st in
  reply served = match caches_match (req_url r) st with
                 | Some cached => Respond (entry_response cached)
                 | None => getFallbackResponse r st
                 end
  ∧ (∀ name, cache_of name (storage served) = cache_of name st)
  ∧ served = networkFirst now timeout Fails r st.
Proof.
  intros Hnet served.
  assert (Heq : served = networkFirst now timeout Fails r st).
  { subst served. destruct Hnet as [->|(resp & latency & -> & Hlate)]; [reflexivity|].
    unfold networkFirst. destruct (Z.ltb_spec latency timeout); [lia|reflexivity]. }
  rewrite Heq. unfold networkFirst.
  rewrite caches_match_open, getFallbackResponse_open.
  split; [|split; [|reflexivity]].
  - destruct (caches_match (req_url r) st); reflexivity.
  - intros name. destruct (caches_match (req_url r) st); simpl; apply cache_of_open.
Qed.

Lemma X8_networkFirst_offline_witness :
  reply (networkFirst 0 5000 (Responds fresh_png 6000) logo old_images)
  = Respond stale_png.
Proof.
  apply (X8_networkFirst_offline 0 5000 (Responds fresh_png 6000) logo old_images).
  right. exists fresh_png, 6000. split; [reflexivity|lia].
Defined.

(** *** What the listener answers with *)

Lemma fallback_is_a_response r st :
  is_Some (caches_match "/offline.html" st) →
  is_Some (caches_match "/images/placeholder.jpg" st) →
  ∃ resp, getFallbackResponse r st = Respond resp.
Proof.
  intros [page Hpage] [img Himg]. unfold getFallbackResponse.
  rewrite Hpage, Himg. simpl.
  destruct (String.eqb _ _); [eauto|]. destruct (String.eqb _ _); [eauto|].
  destruct (includes _ _); eauto.
Qed.

(** X9.  With the offline page and the placeholder image in a cache (both
    are precached), the listener answers every request it handles with a
    response, from the network, from a cache or as a fallback, with one
    exception: [staleWhileRevalidate] on a miss rejects when the network
    fails, its fallback is not reached. *)
Theorem X9_listener_answers_with_a_response now net ev st served :
  onFetch now net ev st = Some served →
  is_Some (caches_match "/offline.html" st) →
  is_Some (caches_match "/images/placeholder.jpg" st) →
  (∃ resp, reply served = Respond resp)
  ∨ (getStrategyForRequest (ev_request ev) = staleWhileRevalidateS
     ∧ net = Fails
     ∧ cache_match (req_url (ev_request ev))
         (cache_of (CACHES (getCacheForRequest (ev_request ev))) st) = None
     ∧ reply served = NetworkError).
Proof.
  intros Hserved Hpage Himg. unfold onFetch in Hserved.
  destruct (negb _); [discriminate|]. destruct (_ || _); [discriminate|].
  inversion Hserved as [Heq]. clear Hserved Heq.
  set (r := ev_request ev).
  destruct (fallback_is_a_response r st Hpage Himg) as [fb Hfb].
  destruct (getStrategyForRequest r) eqn:S.
  - left. unfold cacheFirst. destruct (caches_match (req_url r) st); [simpl; eauto|].
    destruct net; simpl; rewrite ?Hfb; eauto.
  - left. unfold networkFirst.
    rewrite caches_match_open, getFallbackResponse_open, Hfb.
    destruct net as [resp latency|].
    + destruct (_ <? _)%Z; [destruct (ok resp); simpl; eauto|].
      destruct (caches_match (req_url r) st); simpl; eauto.
    + destruct (caches_match (req_url r) st); simpl; eauto.
  - unfold staleWhileRevalidate. rewrite cache_of_open.
    destruct (cache_match _ _) eqn:M; [left; simpl; eauto|].
    destruct net; [left; simpl; eauto|right; auto].
  - left. unfold networkOnly. destruct net; simpl; rewrite ?Hfb; eauto.
  - left. unfold cacheOnly. destruct (caches_match (req_url r) st); simpl; rewrite ?Hfb; eauto.
Qed.

Lemma X9_listener_answers_with_a_response_witness :
  let st := [(CACHES STATIC,
              [("/offline.html", mkEntry offline_text 0);
               ("/images/placeholder.jpg", mkEntry png 0)])] in
  reply (staleWhileRevalidate 0 Fails banner st) = NetworkError.
Proof.
  intros st.
  assert (Hpage : is_Some (caches_match "/offline.html" st)) by (vm_compute; eauto).
  assert (Himg : is_Some (caches_match "/images/placeholder.jpg" st))
    by (vm_compute; eauto).
  destruct (X9_listener_answers_with_a_response
              0 Fails (mkFetchEvent banner "GET" "https:") st
              (staleWhileRevalidate 0 Fails banner st) eq_refl Hpage Himg)
    as [[resp H]|(_ & _ & _ & H)].
  - vm_compute in H. discriminate H.
  - exact H.
Defined.

End ServiceWorkerExtras.

(** ** The media worker *)

Module MediaWorkerExtras.
Import MediaWorker.

(** *** The concurrency ceiling *)

Lemma processQueue_ceiling w : within_ceiling w → within_ceiling (processQueue w).
Proof.
  unfold within_ceiling, processQueue. intros H.
  destruct (Z.leb_spec (maxConcurrent (state w)) (currentPreloads (state w)));
    [exact H|].
  destruct (preloadQueue (state w)); [exact H|]. simpl. lia.
Qed.

Lemma fetchAndCache_limits t o w w1 r :
  fetchAndCache_resume t o w = (w1, r) → same_limits w w1.
Proof.
  unfold fetchAndCache_resume. destruct o as [ok st txt ct len|e].
  - destruct ok; simpl; [destruct (cachesAvailable w)|];
      intros H; inversion H; split; reflexivity.
  - destruct (String.eqb _ _); intros H; inversion H; split; reflexivity.
Qed.

Lemma on_preload_error_limits item e w : same_limits w (on_preload_error item e w).
Proof. unfold on_preload_error. destruct (_ <? _)%Z; split; reflexivity. Qed.

Lemma on_preload_result_limits item r w : same_limits w (on_preload_result item r w).
Proof. destruct r; [split; reflexivity|apply on_preload_error_limits]. Qed.

Lemma processQueue_resume_ceiling c o w :
  within_ceiling w → within_ceiling (processQueue_resume c o w).
Proof.
  intros H. unfold processQueue_resume.
  destruct (fetches w !! c) as [t|]; [|exact H].
  destruct (fetchAndCache_resume _ _ _) as [w1 r] eqn:F.
  apply fetchAndCache_limits in F as [Fc Fm].
  set (w2 := match r with
             | Return res => on_preload_result (task_item t) res w1
             | Throw e => on_preload_error (task_item t) e w1
             end).
  assert (same_limits w1 w2) as [Gc Gm].
  { subst w2. destruct r; [apply on_preload_result_limits|apply on_preload_error_limits]. }
  apply processQueue_ceiling. unfold within_ceiling in *. simpl in *.
  rewrite Gc, Gm, Fc, Fm. simpl. lia.
Qed.

Lemma step_ceiling w ev :
  is_set_network ev = false → within_ceiling w → within_ceiling (step w ev).
Proof.
  intros Hev H. destruct ev; try discriminate; simpl.
  - unfold preloadTrack.
    destruct (preloaded (state w) !! _); [exact H|].
    destruct (preloading (state w) !! _); [exact H|].
    apply processQueue_ceiling. exact H.
  - unfold cancelPreload. destruct (preloading (state w) !! _); [|exact H].
    apply processQueue_ceiling. unfold within_ceiling in *. simpl. lia.
  - exact H.
  - exact H.
  - apply processQueue_resume_ceiling, H.
  - unfold fire_timer. destruct (timers w !! i); [|exact H].
    destruct (_ <=? _)%Z; [|exact H]. apply processQueue_ceiling. exact H.
  - exact H.
Qed.

Lemma run_ceiling evs w :
  forallb (λ ev, negb (is_set_network ev)) evs = true →
  within_ceiling w → within_ceiling (run evs w).
Proof.
  revert w. induction evs as [|ev evs IH]; intros w Hevs H; [exact H|].
  simpl in Hevs. apply andb_true_iff in Hevs as [Hev Hevs].
  apply negb_true_iff in Hev. apply (IH _ Hevs).
  apply step_ceiling; assumption.
Qed.

(** X10.  Whatever is enqueued, cancelled, cleared, settled or retried, the
    in-flight counter stays within the ceiling, as long as no network info
    lowers the ceiling under it: a dispatch happens only below the
    ceiling. *)
Theorem X10_counter_within_ceiling evs w :
  forallb (λ ev, negb (is_set_network ev)) evs = true →
  currentPreloads (state w) ≤ maxConcurrent (state w) →
  currentPreloads (state (run evs w)) ≤ maxConcurrent (state (run evs w)).
Proof. apply run_ceiling. Qed.

Lemma X10_counter_within_ceiling_witness :
  currentPreloads (state c_waiting) ≤ maxConcurrent (state c_waiting).
Proof.
  apply (X10_counter_within_ceiling
           [MsgPreloadTrack track_a; MsgPreloadTrack track_b; MsgPreloadTrack track_c]
           initial_world).
  - reflexivity.
  - simpl. lia.
Defined.

Lemma initialize_frame config estimate w :
  let w' := initialize config estimate w in
  currentPreloads (state w') = currentPreloads (state w)
  ∧ fetches w' = fetches w
  ∧ controllers w' = controllers w
  ∧ preloadQueue (state w') = preloadQueue (state w)
  ∧ maxConcurrent (state w')
    = truthy_or (cfg_maxConcurrent config) (maxConcurrent (state w)).
Proof.
  unfold initialize, checkCacheSize. destruct (cachesAvailable w); [|simpl; auto].
  destruct estimate as [usage|]; [|simpl; auto].
  destruct (_ <? _)%Z; simpl; auto.
Qed.

Lemma keeps_ceiling_initialize config estimate w :
  keeps_ceiling (MsgInit config estimate) = true →
  maxConcurrent (state (initialize config estimate w)) = maxConcurrent (state w).
Proof.
  intros H. rewrite (proj2 (proj2 (proj2 (proj2 (initialize_frame config estimate w))))).
  unfold truthy_or. simpl in H.
  destruct (cfg_maxConcurrent config) as [n|]; [|reflexivity].
  rewrite H. reflexivity.
Qed.

Lemma control_step_ceiling w c :
  keeps_ceiling c = true → within_ceiling w → within_ceiling (control_step w c).
Proof.
  intros Hc H. destruct c as [ev|config estimate]; simpl.
  - apply step_ceiling; [|exact H]. destruct ev; try reflexivity. discriminate.
  - unfold within_ceiling. rewrite (keeps_ceiling_initialize _ _ _ Hc).
    rewrite (proj1 (initialize_frame config estimate w)). exact H.
Qed.

Lemma control_step_counter w c :
  is_cancel_control c = false → counter_exact w → counter_exact (control_step w c).
Proof.
  intros Hc H. destruct c as [ev|config estimate]; simpl.
  - apply MediaWorkerProofs.step_counter; [|exact H].
    destruct ev; try reflexivity. discriminate.
  - destruct (initialize_frame config estimate w) as (Hn & Hf & Hk & _).
    revert H. apply MediaWorkerProofs.same_books_counter. split; [exact Hn|]. auto.
Qed.

(** X11.  Over any sequence of events of the worker, [INIT] included, as
    long as nothing is cancelled and the ceiling is not set again (no
    [SET_NETWORK], and no [INIT] with a [maxConcurrent]), the requests in
    flight are as many as the counter says, and never more than the
    ceiling. *)
Theorem X11_requests_in_flight_within_ceiling cs w :
  forallb (λ c, negb (is_cancel_control c) && keeps_ceiling c) cs = true →
  counter_exact w →
  currentPreloads (state w) ≤ maxConcurrent (state w) →
  let w' := control_run cs w in
  Z.of_nat (size (fetches w')) = currentPreloads (state w')
  ∧ Z.of_nat (size (fetches w')) ≤ maxConcurrent (state w').
Proof.
  intros Hcs Hexact Hceil w'. subst w'.
  assert (H : counter_exact (control_run cs w) ∧ within_ceiling (control_run cs w)).
  { revert w Hexact Hceil. induction cs as [|c cs IH]; intros w Hexact Hceil; [auto|].
    simpl in Hcs. apply andb_true_iff in Hcs as [Hc Hcs].
    apply andb_true_iff in Hc as [Hcancel Hkeep].
    apply negb_true_iff in Hcancel.
    apply (IH Hcs).
    - apply control_step_counter; assumption.
    - apply control_step_ceiling; assumption. }
  destruct H as [[Hc _] Hm]. unfold within_ceiling in Hm. rewrite <- Hc. auto.
Qed.

Lemma X11_requests_in_flight_within_ceiling_witness :
  Z.of_nat (size (fetches (initialize (mkConfig None (Some 1000) None) None c_waiting)))
  = 2.
Proof.
  refine (eq_trans
            (proj1 (X11_requests_in_flight_within_ceiling
                      [Worker (MsgPreloadTrack track_a); Worker (MsgPreloadTrack track_b);
                       Worker (MsgPreloadTrack track_c);
                       MsgInit (mkConfig None (Some 1000) None) None]
                      initial_world _ _ _)) _).
  - reflexivity.
  - apply MediaWorkerProofs.counter_exact_initially.
  - simpl. lia.
  - reflexivity.
Defined.

(** *** The attempts of an item *)

Lemma Forall_filter_bool {A} (P : A → Prop) (f : A → bool) (l : list A) :
  Forall P l → Forall P (List.filter f l).
Proof.
  induction 1 as [|x l Hx _ IH]; simpl; [constructor|].
  destruct (f x); [constructor; assumption|assumption].
Qed.

Lemma processQueue_attempts w :
  attempts_invariant w → attempts_invariant (processQueue w).
Proof.
  intros Hinv. pose proof Hinv as (Hq & Ht & Hf). unfold processQueue.
  destruct (_ <=? _)%Z; [exact Hinv|].
  destruct (preloadQueue (state w)) as [|item rest] eqn:E; [exact Hinv|].
  inversion Hq as [|? ? Hitem Hrest]; subst.
  split; [exact Hrest|]. split; [exact Ht|]. simpl.
  apply map_Forall_insert_2; [exact Hitem|exact Hf].
Qed.

Lemma on_preload_error_attempts item e w :
  attempts_bounded item → attempts_invariant w →
  attempts_invariant (on_preload_error item e w).
Proof.
  intros Hitem Hinv. pose proof Hinv as (Hq & Ht & Hf).
  unfold on_preload_error, attempts_bounded in *.
  destruct (Z.ltb_spec (attempts item) RETRY_ATTEMPTS); [|exact Hinv].
  split; [exact Hq|]. split; [|exact Hf]. simpl.
  apply Forall_app_2; [exact Ht|]. constructor; [|constructor].
  split; simpl; [lia|reflexivity].
Qed.

Lemma on_preload_result_attempts item r w :
  attempts_bounded item → attempts_invariant w →
  attempts_invariant (on_preload_result item r w).
Proof.
  destruct r; [intros _ H; exact H|apply on_preload_error_attempts].
Qed.

Lemma fetchAndCache_attempts t o w w1 r :
  fetchAndCache_resume t o w = (w1, r) →
  attempts_invariant w → attempts_invariant w1.
Proof.
  unfold fetchAndCache_resume. destruct o as [ok st txt ct len|e].
  - destruct ok; simpl; [destruct (cachesAvailable w)|];
      intros H; inversion H; auto.
  - destruct (String.eqb _ _); intros H; inversion H; auto.
Qed.

Lemma processQueue_resume_attempts c o w :
  attempts_invariant w → attempts_invariant (processQueue_resume c o w).
Proof.
  intros Hinv. unfold processQueue_resume.
  destruct (fetches w !! c) as [t|] eqn:E; [|exact Hinv].
  assert (Hitem : attempts_bounded (task_item t)).
  { destruct Hinv as (_ & _ & Hf). exact (map_Forall_lookup_1 _ _ _ _ Hf E). }
  assert (Hdrop : attempts_invariant (drop_fetch c w)).
  { destruct Hinv as (Hq & Ht & Hf). split; [exact Hq|]. split; [exact Ht|].
    simpl. apply map_Forall_delete. exact Hf. }
  destruct (fetchAndCache_resume _ _ _) as [w1 r] eqn:F.
  apply (fetchAndCache_attempts _ _ _ _ _ F) in Hdrop.
  apply processQueue_attempts.
  assert (Hw2 : attempts_invariant
                  match r with
                  | Return res => on_preload_result (task_item t) res w1
                  | Throw e => on_preload_error (task_item t) e w1
                  end).
  { destruct r; [apply on_preload_result_attempts|apply on_preload_error_attempts];
      assumption. }
  exact Hw2.
Qed.

Lemma step_attempts w ev :
  attempts_invariant w → attempts_invariant (step w ev).
Proof.
  intros Hinv. destruct ev; simpl.
  - unfold preloadTrack.
    destruct (preloaded (state w) !! _); [exact Hinv|].
    destruct (preloading (state w) !! _); [exact Hinv|].
    apply processQueue_attempts. destruct Hinv as (Hq & Ht & Hf).
    split; [|split; assumption]. simpl.
    assert (attempts_bounded
              (mkItem (track_id t) (track_url t) (default "normal" (track_priority t)) 0)).
    { unfold attempts_bounded, RETRY_ATTEMPTS. simpl. lia. }
    destruct (String.eqb _ _); [constructor; assumption|].
    apply Forall_app_2; [assumption|]. constructor; [assumption|constructor].
  - unfold cancelPreload. destruct Hinv as (Hq & Ht & Hf).
    assert (attempts_invariant
              (with_state w
                 {| preloadQueue :=
                      List.filter (λ item, negb (String.eqb (id item) trackId))
                                  (preloadQueue (state w));
                    preloading := preloading (state w);
                    preloaded := preloaded (state w);
                    currentPreloads := currentPreloads (state w);
                    maxConcurrent := maxConcurrent (state w);
                    networkType := networkType (state w);
                    cacheSize := cacheSize (state w);
                    maxCacheSize := maxCacheSize (state w);
                    quality := quality (state w) |})) as Hcut.
    { split; [|split; assumption]. simpl. apply Forall_filter_bool. exact Hq. }
    destruct (preloading (state w) !! trackId); [|exact Hcut].
    apply processQueue_attempts. exact Hcut.
  - destruct Hinv as (Hq & Ht & Hf). split; [constructor|split; assumption].
  - exact Hinv.
  - exact Hinv.
  - apply processQueue_resume_attempts, Hinv.
  - unfold fire_timer. destruct (timers w !! i) as [t|] eqn:E; [|exact Hinv].
    destruct (_ <=? _)%Z; [|exact Hinv].
    apply processQueue_attempts. destruct Hinv as (Hq & Ht & Hf).
    destruct (Forall_lookup_1 _ _ _ _ Ht E) as [Hitem _].
    split; [|split]; simpl.
    + apply Forall_app_2; [exact Hq|]. constructor; [|constructor].
      unfold attempts_bounded. lia.
    + apply Forall_app_2; [apply Forall_take|apply Forall_drop]; exact Ht.
    + exact Hf.
  - exact Hinv.
Qed.

Lemma run_attempts evs w :
  attempts_invariant w → attempts_invariant (run evs w).
Proof.
  revert w. induction evs as [|ev evs IH]; intros w H; [exact H|].
  apply IH, step_attempts, H.
Qed.

Lemma attempts_invariant_initially : attempts_invariant initial_world.
Proof.
  split; [constructor|]. split; [constructor|]. apply map_Forall_empty.
Qed.

(** X12.  After any sequence of events from the initial world, every item,
    whether it waits in the queue, in a retry timer or is in flight, has
    between 0 and 3 attempts, so an item is requested at most four times;
    and every retry timer has the delay of its item, 1000 ms times its
    attempts, at most 3000 ms. *)
Theorem X12_attempts_never_exceed_the_limit evs :
  let w := run evs initial_world in
  (∀ item, In item (preloadQueue (state w)) → 0 ≤ attempts item ≤ 3)
  ∧ (∀ c task, fetches w !! c = Some task → 0 ≤ attempts (task_item task) ≤ 3)
  ∧ (∀ t, In t (timers w) →
       1 ≤ attempts (timer_item t) ≤ 3
       ∧ timer_delay t = 1000 * attempts (timer_item t)
       ∧ timer_delay t ≤ 3000).
Proof.
  intros w.
  destruct (run_attempts evs initial_world attempts_invariant_initially)
    as (Hq & Ht & Hf).
  fold w in Hq, Ht, Hf.
  split; [|split].
  - intros item Hin. rewrite Forall_forall in Hq. apply Hq, list_elem_of_In, Hin.
  - intros c task Hc. exact (map_Forall_lookup_1 _ _ _ _ Hf Hc).
  - intros t Hin. rewrite Forall_forall in Ht.
    destruct (Ht t (proj2 (list_elem_of_In _ _) Hin)) as [Hb Hd].
    unfold RETRY_ATTEMPTS, RETRY_DELAY in *. repeat split; lia.
Qed.

Lemma X12_attempts_never_exceed_the_limit_witness :
  timer_delay (mkTimer 6000 3000 (item_a 3)) ≤ 3000.
Proof.
  destruct (X12_attempts_never_exceed_the_limit three_failures) as (_ & _ & H).
  destruct (H (mkTimer 6000 3000 (item_a 3))) as (_ & _ & Hd).
  - vm_compute. left. reflexivity.
  - exact Hd.
Defined.

(** *** A request that settles *)

Lemma processQueue_preloaded w :
  preloaded (state (processQueue w)) = preloaded (state w).
Proof.
  unfold processQueue. destruct (_ <=? _)%Z; [reflexivity|].
  destruct (preloadQueue (state w)); reflexivity.
Qed.

Lemma processQueue_mediaCache w : mediaCache (processQueue w) = mediaCache w.
Proof.
  unfold processQueue. destruct (_ <=? _)%Z; [reflexivity|].
  destruct (preloadQueue (state w)); reflexivity.
Qed.








(** X14.  When the request of an item is rejected with an [AbortError],
    which is what an abort does while the request or its body is pending,
    the preload does not complete: the track is not recorded in
    [preloaded], nothing is written to the media cache and no
    [PRELOAD_COMPLETE] is posted. *)
Theorem X14_abort_error_never_completes c t e w :
  fetches w !! c = Some t →
  err_name e = "AbortError" →
  let w' := processQueue_resume c (Rejected e) w in
  preloaded (state w') = preloaded (state w)
  ∧ mediaCache w' = mediaCache w
  ∧ (outbox w' = outbox w
     ∨ outbox w'
       = (outbox w
          ++ [PRELOAD_FAILED (id (task_item t)) (err_message nullSizeError)])%list).
Proof.
  intros Hc He w'. subst w'. unfold processQueue_resume, observed. rewrite Hc.
  assert (Hnull : fetchAndCache_resume t
                    (if default false (controllers w !! c)
                     then Rejected abortError else Rejected e)
                    (drop_fetch c w)
                  = (drop_fetch c w, Return None)).
  { destruct (default false (controllers w !! c)); simpl; [reflexivity|].
    rewrite He. reflexivity. }
  rewrite Hnull. simpl.
  rewrite processQueue_preloaded, processQueue_mediaCache,
    MediaWorkerProofs.processQueue_outbox.
  unfold on_preload_error. destruct (_ <? _)%Z; simpl; auto.
Qed.

Lemma X14_abort_error_never_completes_witness :
  preloaded (state (run [MsgCancelPreload "a"; FetchSettles 0 (Rejected abortError)]
                        a_in_flight))
  = ∅.
Proof.
  apply (X14_abort_error_never_completes
           0 (mkTask (item_a 0) "/media/a.mp3?quality=medium" "medium")
           abortError (step a_in_flight (MsgCancelPreload "a")));
    reflexivity.
Defined.

(** *** Cancelling *)

Lemma filter_other_ids trackId (q : list QueueItem) :
  Forall (λ item, id item ≠ trackId)
         (List.filter (λ item, negb (String.eqb (id item) trackId)) q).
Proof.
  apply Forall_forall. intros item Hin. apply list_elem_of_In, filter_In in Hin as [_ H].
  apply negb_true_iff, String.eqb_neq in H. exact H.
Qed.

(** X15.  [cancelPreload] of an id that is not in flight removes every
    waiting item of that id from the queue and keeps the others; it leaves
    the counter, the requests in flight, the controllers, the preloaded
    tracks and the retry timers alone (an item that waits for its retry is
    not cancelled), and when no waiting item has the id it changes
    nothing. *)
Theorem X15_cancel_of_an_id_not_in_flight trackId w :
  preloading (state w) !! trackId = None →
  let w' := cancelPreload trackId w in
  Forall (λ item, id item ≠ trackId) (preloadQueue (state w'))
  ∧ (∀ item, id item ≠ trackId →
       (In item (preloadQueue (state w')) ↔ In item (preloadQueue (state w))))
  ∧ currentPreloads (state w') = currentPreloads (state w)
  ∧ fetches w' = fetches w
  ∧ controllers w' = controllers w
  ∧ preloaded (state w') = preloaded (state w)
  ∧ timers w' = timers w
  ∧ (Forall (λ item, id item ≠ trackId) (preloadQueue (state w)) → w' = w).
Proof.
  intros Hnone w'. subst w'. unfold cancelPreload. rewrite Hnone. simpl.
  split; [apply filter_other_ids|].
  split.
  { intros item Hne. rewrite filter_In. split; [intros [H _]; exact H|].
    intros H. split; [exact H|]. apply negb_true_iff, String.eqb_neq. exact Hne. }
  repeat (split; [reflexivity|]).
  intros Hall.
  assert (List.filter (λ item, negb (String.eqb (id item) trackId))
                      (preloadQueue (state w))
          = preloadQueue (state w)) as ->.
  { induction Hall as [|item q Hne _ IH]; simpl; [reflexivity|].
    apply String.eqb_neq in Hne. rewrite Hne. simpl. rewrite IH. reflexivity. }
  destruct w as [[] ]. reflexivity.
Qed.

Lemma X15_cancel_of_an_id_not_in_flight_witness :
  preloadQueue (state (cancelPreload "c" c_waiting)) = []
  ∧ cancelPreload "zz" c_waiting = c_waiting.
Proof.
  split; [reflexivity|].
  apply (X15_cancel_of_an_id_not_in_flight "zz" c_waiting).
  - reflexivity.
  - compute_done.
Defined.

Lemma processQueue_controllers_lookup c w :
  (c < length (controllers w))%nat →
  controllers (processQueue w) !! c = controllers w !! c.
Proof.
  intros Hlt. unfold processQueue. destruct (_ <=? _)%Z; [reflexivity|].
  destruct (preloadQueue (state w)); [reflexivity|]. simpl.
  apply lookup_app_l. exact Hlt.
Qed.

(** X16.  [cancelPreload] of an id in flight aborts the controller of its
    request and no other, takes the id out of [preloading], and leaves no
    item of that id in the queue: the slot it frees goes to the next waiting
    item of another id. *)
Theorem X16_cancel_aborts_the_request_in_flight trackId info w :
  preloading (state w) !! trackId = Some info →
  (controller info < length (controllers w))%nat →
  let w' := cancelPreload trackId w in
  controllers w' !! controller info = Some true
  ∧ (∀ c, c ≠ controller info → (c < length (controllers w))%nat →
       controllers w' !! c = controllers w !! c)
  ∧ preloading (state w') !! trackId = None
  ∧ Forall (λ item, id item ≠ trackId) (preloadQueue (state w')).
Proof.
  intros Hin Hlt w'. subst w'. unfold cancelPreload. rewrite Hin.
  set (q := List.filter (λ item, negb (String.eqb (id item) trackId))
                        (preloadQueue (state w))).
  pose proof (filter_other_ids trackId (preloadQueue (state w))) as Hq. fold q in Hq.
  split; [|split; [|split]].
  - rewrite processQueue_controllers_lookup by (simpl; rewrite length_insert; exact Hlt).
    simpl. apply list_lookup_insert_eq. exact Hlt.
  - intros c Hne Hc.
    rewrite processQueue_controllers_lookup by (simpl; rewrite length_insert; exact Hc).
    simpl. apply list_lookup_insert_ne. auto.
  - unfold processQueue. simpl. destruct (_ <=? _)%Z; simpl; [apply lookup_delete_eq|].
    destruct q as [|item rest]; simpl; [apply lookup_delete_eq|].
    inversion Hq; subst. rewrite lookup_insert_ne by assumption. apply lookup_delete_eq.
  - unfold processQueue. simpl. destruct (_ <=? _)%Z; simpl; [exact Hq|].
    destruct q as [|item rest]; simpl; [constructor|].
    inversion Hq; subst. assumption.
Qed.

Lemma X16_cancel_aborts_the_request_in_flight_witness :
  controllers (cancelPreload "a" c_waiting) !! 0%nat = Some true
  ∧ controllers (cancelPreload "a" c_waiting) !! 1%nat = Some false.
Proof.
  destruct (X16_cancel_aborts_the_request_in_flight
              "a" (mkInfo 0 0 0) c_waiting) as (H1 & H2 & _).
  - reflexivity.
  - vm_compute. lia.
  - split; [exact H1|]. rewrite H2; [reflexivity|simpl; lia|vm_compute; lia].
Defined.

(** *** Network info and quality *)

(** X17.  After [setNetworkInfo], with the quality left on [auto], the
    ceiling and the quality of the next requests go together: a ceiling of 1
    exactly when the quality is [low], a ceiling of 2 only with [medium],
    and [high] only with a ceiling of 3.  The call itself neither starts nor
    stops anything: queue, counter, requests in flight and controllers are
    as before, also when the new ceiling leaves room for waiting items. *)
Theorem X17_ceiling_and_quality_go_together info w :
  quality (state w) = "auto" →
  let w' := setNetworkInfo info w in
  (maxConcurrent (state w') = 1 ↔ determineQuality (state w') = "low")
  ∧ (maxConcurrent (state w') = 2 → determineQuality (state w') = "medium")
  ∧ (determineQuality (state w') = "high" → maxConcurrent (state w') = 3)
  ∧ preloadQueue (state w') = preloadQueue (state w)
  ∧ currentPreloads (state w') = currentPreloads (state w)
  ∧ fetches w' = fetches w
  ∧ controllers w' = controllers w.
Proof.
  intros Hauto w'. subst w'. unfold setNetworkInfo, determineQuality. simpl.
  rewrite Hauto. simpl.
  generalize (or_default (net_type info) "unknown"). intros nt.
  repeat (split; [|try reflexivity]);
    destruct (String.eqb_spec nt "2g") as [->|?]; simpl; try (intros; congruence);
    destruct (String.eqb_spec nt "slow-2g") as [->|?]; simpl; try (intros; congruence);
    destruct (String.eqb_spec nt "3g") as [->|?]; simpl; try (intros; congruence);
    destruct (String.eqb_spec nt "4g") as [->|?]; simpl; try (intros; congruence);
    destruct (String.eqb_spec nt "wifi") as [->|?]; simpl; intros; congruence.
Qed.

Lemma X17_ceiling_and_quality_go_together_witness :
  determineQuality
    (state (setNetworkInfo (mkNetworkInfo (Some "slow-2g") None 0 0 false)
                           initial_world))
  = "low".
Proof.
  apply (proj1 (proj1 (X17_ceiling_and_quality_go_together
                         (mkNetworkInfo (Some "slow-2g") None 0 0 false)
                         initial_world eq_refl))).
  reflexivity.
Defined.

(** *** No item waits while a slot is free *)

Lemma processQueue_work_conserving_after_one w q :
  preloadQueue (state w) = q →
  (match q with
   | [] => True
   | _ :: rest => rest = [] ∨ maxConcurrent (state w) ≤ currentPreloads (state w) + 1
   end) →
  work_conserving (processQueue w).
Proof.
  intros Hq H. unfold work_conserving, processQueue.
  destruct (Z.leb_spec (maxConcurrent (state w)) (currentPreloads (state w)));
    [right; assumption|].
  rewrite Hq. destruct q as [|item rest]; [left; exact Hq|]. simpl.
  destruct H as [->|H]; [left; reflexivity|right; exact H].
Qed.

Lemma work_conserving_enqueue item w :
  work_conserving w →
  work_conserving (processQueue (with_state w (enqueue item (state w)))).
Proof.
  intros H. eapply processQueue_work_conserving_after_one; [reflexivity|]. simpl.
  destruct H as [H|H].
  - rewrite H. destruct (String.eqb _ _); simpl; left; reflexivity.
  - destruct (String.eqb _ _); [right; lia|].
    destruct (preloadQueue (state w)); simpl; [left; reflexivity|right; lia].
Qed.

Lemma work_conserving_release tid w :
  work_conserving w → work_conserving (processQueue (release tid w)).
Proof.
  intros H. eapply processQueue_work_conserving_after_one; [reflexivity|]. simpl.
  unfold work_conserving in H.
  destruct (preloadQueue (state w)) as [|item rest] eqn:E; [exact I|].
  destruct H as [H|H]; [discriminate|]. right. lia.
Qed.

Lemma fetchAndCache_queue t o w w1 r :
  fetchAndCache_resume t o w = (w1, r) →
  preloadQueue (state w1) = preloadQueue (state w).
Proof.
  unfold fetchAndCache_resume. destruct o as [ok st txt ct len|e].
  - destruct ok; simpl; [destruct (cachesAvailable w)|];
      intros H; inversion H; reflexivity.
  - destruct (String.eqb _ _); intros H; inversion H; reflexivity.
Qed.

Lemma on_preload_result_queue item r w :
  preloadQueue (state (on_preload_result item r w)) = preloadQueue (state w).
Proof.
  destruct r; [reflexivity|]. simpl. unfold on_preload_error.
  destruct (_ <? _)%Z; reflexivity.
Qed.

Lemma on_preload_error_queue item e w :
  preloadQueue (state (on_preload_error item e w)) = preloadQueue (state w).
Proof. unfold on_preload_error. destruct (_ <? _)%Z; reflexivity. Qed.

Lemma step_work_conserving w ev :
  is_set_network ev = false → work_conserving w → work_conserving (step w ev).
Proof.
  intros Hev H. destruct ev; try discriminate; simpl.
  - unfold preloadTrack.
    destruct (preloaded (state w) !! _); [exact H|].
    destruct (preloading (state w) !! _); [exact H|].
    apply work_conserving_enqueue, H.
  - unfold cancelPreload.
    set (q := List.filter _ _).
    assert (Hcut : q = [] ∨ maxConcurrent (state w) ≤ currentPreloads (state w)).
    { destruct H as [H|H]; [left; subst q; rewrite H; reflexivity|right; exact H]. }
    destruct (preloading (state w) !! trackId); [|exact Hcut].
    apply work_conserving_release. exact Hcut.
  - left. reflexivity.
  - exact H.
  - unfold processQueue_resume. destruct (fetches w !! c) as [t|]; [|exact H].
    destruct (fetchAndCache_resume _ _ _) as [w1 r] eqn:F.
    pose proof (fetchAndCache_queue _ _ _ _ _ F) as Fq.
    apply fetchAndCache_limits in F as [Fc Fm].
    apply work_conserving_release. unfold work_conserving in *.
    destruct r.
    + rewrite on_preload_result_queue, Fq.
      destruct (on_preload_result_limits (task_item t) a w1) as [-> ->].
      rewrite Fc, Fm. exact H.
    + rewrite on_preload_error_queue, Fq.
      destruct (on_preload_error_limits (task_item t) e w1) as [-> ->].
      rewrite Fc, Fm. exact H.
  - unfold fire_timer. destruct (timers w !! i) as [t|]; [|exact H].
    destruct (_ <=? _)%Z; [|exact H]. unfold requeue.
    eapply processQueue_work_conserving_after_one; [reflexivity|]. simpl.
    destruct H as [H|H]; [rewrite H; left; reflexivity|].
    destruct (preloadQueue (state w)); simpl; [left; reflexivity|right; lia].
  - exact H.
Qed.

Lemma control_step_work_conserving w c :
  keeps_ceiling c = true → work_conserving w → work_conserving (control_step w c).
Proof.
  intros Hc H. destruct c as [ev|config estimate]; simpl.
  - apply step_work_conserving; [|exact H]. destruct ev; try reflexivity. discriminate.
  - unfold work_conserving. rewrite (keeps_ceiling_initialize _ _ _ Hc).
    destruct (initialize_frame config estimate w) as (-> & _ & _ & -> & _). exact H.
Qed.

(** X22.  Over any sequence of events of the worker, [INIT] and
    cancellations included, as long as the ceiling is not set again (no
    [SET_NETWORK], and no [INIT] with a [maxConcurrent]), no item is left
    waiting in the queue while the counter is below the ceiling: every
    enqueue and every release is followed by a dispatch when there is room.
    Neither [setNetworkInfo] nor [initialize] calls [processQueue], so
    raising the ceiling dispatches nothing. *)
Theorem X22_no_item_waits_while_a_slot_is_free cs w :
  forallb keeps_ceiling cs = true →
  (preloadQueue (state w) = [] ∨ maxConcurrent (state w) ≤ currentPreloads (state w)) →
  let w' := control_run cs w in
  preloadQueue (state w') = [] ∨ maxConcurrent (state w') ≤ currentPreloads (state w').
Proof.
  revert w. induction cs as [|c cs IH]; intros w Hcs H; [exact H|].
  simpl in Hcs. apply andb_true_iff in Hcs as [Hc Hcs].
  apply (IH _ Hcs). apply control_step_work_conserving; assumption.
Qed.

Lemma X22_no_item_waits_while_a_slot_is_free_witness :
  let w := control_run [MsgInit (mkConfig (Some 0) None None) None;
                        Worker (MsgCancelPreload "a")] c_waiting in
  preloadQueue (state w) = [] ∨ maxConcurrent (state w) ≤ currentPreloads (state w).
Proof.
  apply (X22_no_item_waits_while_a_slot_is_free
           [MsgInit (mkConfig (Some 0) None None) None; Worker (MsgCancelPreload "a")]
           c_waiting).
  - reflexivity.
  - right. vm_compute. discriminate.
Defined.

(** *** The media cache *)

(** X19.  [cleanupOldCache] deletes the oldest quarter of the media cache,
    rounded down, and keeps the rest in order (no url is cached twice); a
    cache of fewer than four entries is left as it is; and where there is no
    media cache the call creates an empty one. *)
Theorem X19_cleanup_deletes_the_oldest_quarter w :
  let c := default [] (mediaCache w) in
  NoDup (List.map fst c) →
  mediaCache (cleanupOldCache w) = Some (drop (length c / 4) c)
  ∧ ((length c < 4)%nat → mediaCache (cleanupOldCache w) = Some c)
  ∧ (mediaCache w = None → mediaCache (cleanupOldCache w) = Some [])
  ∧ state (cleanupOldCache w) = state w.
Proof.
  intros c Hnd.
  assert (H : mediaCache (cleanupOldCache w) = Some (drop (length c / 4) c)).
  { unfold cleanupOldCache. cbn [mediaCache]. fold c. rewrite length_map.
    f_equal. apply (delete_oldest (length c / 4) c Hnd). }
  split; [exact H|]. split; [|split; [|reflexivity]].
  - intros Hlt. rewrite H. rewrite Nat.div_small by exact Hlt. reflexivity.
  - intros Hnone. rewrite H. subst c. rewrite Hnone. reflexivity.
Qed.

Lemma X19_cleanup_deletes_the_oldest_quarter_witness :
  let w := processQueue_resume 0 first_megabyte a_in_flight in
  mediaCache (cleanupOldCache w) = Some [("/media/a.mp3?quality=medium", PRELOAD_SIZE)].
Proof.
  intros w.
  rewrite (proj1 (proj2 (X19_cleanup_deletes_the_oldest_quarter w ltac:(compute_done)))).
  - reflexivity.
  - vm_compute. lia.
Defined.

(** *** Initialisation *)

Lemma checkCacheSize_limits estimate w :
  maxConcurrent (state (checkCacheSize estimate w)) = maxConcurrent (state w)
  ∧ maxCacheSize (state (checkCacheSize estimate w)) = maxCacheSize (state w)
  ∧ quality (state (checkCacheSize estimate w)) = quality (state w).
Proof.
  unfold checkCacheSize. destruct estimate as [usage|]; [|auto].
  destruct (_ <? _)%Z; auto.
Qed.

(** X18.  [initialize] takes a value of the configuration only when it is
    there and truthy: a [maxConcurrent] or [maxCacheSize] of 0, or an empty
    [quality], leaves the value the worker had.  The media cache is cleaned
    only where the Cache API exists, the storage estimate is available and
    the usage is above the limit as the configuration just set it. *)
Theorem X18_initialize_ignores_falsy_values config estimate w :
  let w' := initialize config estimate w in
  (maxConcurrent (state w')
   = match cfg_maxConcurrent config with
     | Some n => if (n =? 0)%Z then maxConcurrent (state w) else n
     | None => maxConcurrent (state w)
     end)
  ∧ (maxConcurrent (state w) ≠ 0 → maxConcurrent (state w') ≠ 0)
  ∧ (cfg_quality config = Some EmptyString → quality (state w') = quality (state w))
  ∧ (∀ usage,
       estimate = Some (Some usage) →
       usage ≤ maxCacheSize (state w') →
       mediaCache w' = mediaCache w)
  ∧ (cachesAvailable w = false ∨ estimate = None → mediaCache w' = mediaCache w).
Proof.
  intros w'. subst w'. unfold initialize.
  set (w1 := with_state w _).
  assert (Hmax : maxConcurrent (state (if cachesAvailable w
                                       then checkCacheSize estimate w1 else w1))
                 = truthy_or (cfg_maxConcurrent config) (maxConcurrent (state w))).
  { destruct (cachesAvailable w); [|reflexivity].
    rewrite (proj1 (checkCacheSize_limits estimate w1)). reflexivity. }
  split; [rewrite Hmax; reflexivity|]. split; [|split; [|split]].
  - intros Hnz. rewrite Hmax. unfold truthy_or.
    destruct (cfg_maxConcurrent config) as [n|]; [|exact Hnz].
    destruct (Z.eqb_spec n 0); [exact Hnz|assumption].
  - intros Hq. destruct (cachesAvailable w);
      [rewrite (proj2 (proj2 (checkCacheSize_limits estimate w1)))|];
      subst w1; simpl; rewrite Hq; reflexivity.
  - intros usage -> Hle. destruct (cachesAvailable w); [|reflexivity].
    rewrite (proj1 (proj2 (checkCacheSize_limits (Some (Some usage)) w1))) in Hle.
    unfold checkCacheSize.
    assert ((if (usage =? 0)%Z then 0 else usage) = usage) as ->.
    { destruct (Z.eqb_spec usage 0); congruence. }
    destruct (Z.ltb_spec (maxCacheSize (state w1)) usage); [lia|reflexivity].
  - intros [Hno | ->]; [rewrite Hno; reflexivity|].
    destruct (cachesAvailable w); reflexivity.
Qed.

Lemma X18_initialize_ignores_falsy_values_witness :
  maxConcurrent
    (state (initialize (mkConfig (Some 0) None (Some EmptyString)) None initial_world))
  ≠ 0.
Proof.
  apply (proj1 (proj2 (X18_initialize_ignores_falsy_values
                         (mkConfig (Some 0) None (Some EmptyString)) None
                         initial_world))).
  simpl. lia.
Defined.

(** *** Retries and clearing *)

(** X20.  When its timer fires, a retried item is appended at the tail of
    the queue, whatever its priority: at the ceiling it waits behind every
    item already waiting, and with a slot free and items waiting the head
    of the queue is dispatched, not the retried item.  A timer fires once. *)
Theorem X20_retried_item_goes_to_the_tail i t w :
  timers w !! i = Some t →
  timer_due t ≤ clock w →
  let w' := fire_timer i w in
  length (timers w') = pred (length (timers w))
  ∧ (maxConcurrent (state w) ≤ currentPreloads (state w) →
     preloadQueue (state w') = (preloadQueue (state w) ++ [timer_item t])%list)
  ∧ (∀ head rest,
       currentPreloads (state w) < maxConcurrent (state w) →
       preloadQueue (state w) = head :: rest →
       preloadQueue (state w') = (rest ++ [timer_item t])%list
       ∧ task_item <$> fetches w' !! length (controllers w) = Some head).
Proof.
  intros Hi Hdue w'. subst w'. unfold fire_timer. rewrite Hi.
  destruct (Z.leb_spec (timer_due t) (clock w)); [|lia]. unfold requeue.
  split; [|split].
  - rewrite MediaWorkerProofs.processQueue_timers. simpl.
    rewrite length_app, length_take, length_drop.
    apply lookup_lt_Some in Hi. lia.
  - intros Hsat. rewrite MediaWorkerProofs.processQueue_saturated; [reflexivity|exact Hsat].
  - intros head rest Hfree Hq.
    match goal with
    | |- context [processQueue ?w0] =>
        destruct (MediaWorkerProofs.processQueue_dispatches_head
                    w0 head (rest ++ [timer_item t]) Hfree) as (H1 & _ & _ & H4)
    end.
    + simpl. rewrite Hq. reflexivity.
    + split; [exact H1|exact H4].
Qed.

Lemma X20_retried_item_goes_to_the_tail_witness :
  let w := run [MsgPreloadTrack track_a; FetchSettles 0 net_down;
                MsgPreloadTrack track_b; MsgPreloadTrack track_c;
                MsgPreloadTrack track_h1; Elapse 1000] initial_world in
  List.map id (preloadQueue (state (fire_timer 0 w))) = ["h1"; "a"].
Proof.
  intros w.
  rewrite (proj1 (proj2 (X20_retried_item_goes_to_the_tail
                           0 (mkTimer 1000 1000 (item_a 1)) w eq_refl
                           ltac:(vm_compute; discriminate)))).
  - reflexivity.
  - vm_compute. discriminate.
Defined.



(** *** Tracks in progress *)

Lemma processQueue_tracked w :
  in_progress_tracked w → in_progress_tracked (processQueue w).
Proof.
  intros Hinv. unfold processQueue.
  destruct (_ <=? _)%Z; [exact Hinv|].
  destruct (preloadQueue (state w)) as [|item rest]; [exact Hinv|].
  intros tid info. simpl. rewrite length_app. simpl.
  destruct (decide (id item = tid)) as [<-|Hne].
  - rewrite lookup_insert_eq. intros [= <-]. simpl.
    split; [lia|]. rewrite lookup_insert_eq. eauto.
  - rewrite lookup_insert_ne by exact Hne. intros Hin.
    destruct (Hinv tid info Hin) as (Hlt & t & Ht & Hid).
    split; [lia|]. exists t. rewrite lookup_insert_ne by lia. auto.
Qed.

Lemma release_tracked c t w w2 :
  in_progress_tracked w →
  fetches w !! c = Some t →
  preloading (state w2) = preloading (state w) →
  controllers w2 = controllers w →
  fetches w2 = delete c (fetches w) →
  in_progress_tracked (release (id (task_item t)) w2).
Proof.
  intros Hinv Hc Hp Hk Hf tid info. simpl. rewrite Hp, Hk, Hf.
  intros [Hne Hin]%lookup_delete_Some.
  destruct (Hinv tid info Hin) as (Hlt & t' & Ht' & Hid).
  split; [exact Hlt|]. exists t'. split; [|exact Hid].
  rewrite lookup_delete_ne; [exact Ht'|].
  intros Heq. rewrite <- Heq, Hc in Ht'. inversion Ht'. subst t'. contradiction.
Qed.

Lemma fetchAndCache_ledger t o w w1 r :
  fetchAndCache_resume t o w = (w1, r) →
  preloading (state w1) = preloading (state w)
  ∧ controllers w1 = controllers w
  ∧ fetches w1 = fetches w.
Proof.
  unfold fetchAndCache_resume. destruct o as [ok st txt ct len|e].
  - destruct ok; simpl; [destruct (cachesAvailable w)|];
      intros H; inversion H; auto.
  - destruct (String.eqb _ _); intros H; inversion H; auto.
Qed.

Lemma on_preload_error_ledger item e w :
  preloading (state (on_preload_error item e w)) = preloading (state w)
  ∧ controllers (on_preload_error item e w) = controllers w
  ∧ fetches (on_preload_error item e w) = fetches w.
Proof. unfold on_preload_error. destruct (_ <? _)%Z; auto. Qed.

Lemma on_preload_result_ledger item r w :
  preloading (state (on_preload_result item r w)) = preloading (state w)
  ∧ controllers (on_preload_result item r w) = controllers w
  ∧ fetches (on_preload_result item r w) = fetches w.
Proof. destruct r; [auto|apply on_preload_error_ledger]. Qed.

Lemma step_tracked w ev :
  in_progress_tracked w → in_progress_tracked (step w ev).
Proof.
  intros Hinv. destruct ev; simpl.
  - unfold preloadTrack.
    destruct (preloaded (state w) !! _); [exact Hinv|].
    destruct (preloading (state w) !! _); [exact Hinv|].
    apply processQueue_tracked. exact Hinv.
  - unfold cancelPreload.
    destruct (preloading (state w) !! trackId) as [info|]; [|exact Hinv].
    apply processQueue_tracked. intros tid info'. simpl. rewrite length_insert.
    intros [Hne Hin]%lookup_delete_Some. exact (Hinv tid info' Hin).
  - intros tid info. simpl. rewrite lookup_empty. discriminate.
  - exact Hinv.
  - exact Hinv.
  - unfold processQueue_resume. destruct (fetches w !! c) as [t|] eqn:E; [|exact Hinv].
    destruct (fetchAndCache_resume _ _ _) as [w1 r] eqn:F.
    apply fetchAndCache_ledger in F as (Fp & Fk & Ff).
    apply processQueue_tracked.
    apply (release_tracked c t w _ Hinv E).
    + destruct r;
        [rewrite (proj1 (on_preload_result_ledger _ _ _))
        |rewrite (proj1 (on_preload_error_ledger _ _ _))]; exact Fp.
    + destruct r;
        [rewrite (proj1 (proj2 (on_preload_result_ledger _ _ _)))
        |rewrite (proj1 (proj2 (on_preload_error_ledger _ _ _)))]; exact Fk.
    + destruct r;
        [rewrite (proj2 (proj2 (on_preload_result_ledger _ _ _)))
        |rewrite (proj2 (proj2 (on_preload_error_ledger _ _ _)))]; exact Ff.
  - unfold fire_timer. destruct (timers w !! i); [|exact Hinv].
    destruct (_ <=? _)%Z; [|exact Hinv].
    apply processQueue_tracked. exact Hinv.
  - exact Hinv.
Qed.

Lemma run_tracked evs w :
  in_progress_tracked w → in_progress_tracked (run evs w).
Proof.
  revert w. induction evs as [|ev evs IH]; intros w H; [exact H|].
  apply IH, step_tracked, H.
Qed.

(** X23.  After any sequence of events from the initial world, a track that
    [preloadTrack] reports as in progress has a request in flight: the
    entry of its id in [preloading] names a controller that was allocated
    and whose request, for an item of that id, has not settled. *)
Theorem X23_in_progress_means_in_flight evs track :
  let w := run evs initial_world in
  snd (preloadTrack track w) = InProgress (track_id track) →
  ∃ info t,
    preloading (state w) !! track_id track = Some info
    ∧ (controller info < length (controllers w))%nat
    ∧ fetches w !! controller info = Some t
    ∧ id (task_item t) = track_id track.
Proof.
  intros w Hreply.
  assert (Hinv : in_progress_tracked w).
  { apply run_tracked. intros tid info. simpl. rewrite lookup_empty. discriminate. }
  unfold preloadTrack in Hreply.
  destruct (preloaded (state w) !! track_id track); [discriminate|].
  destruct (preloading (state w) !! track_id track) as [info|] eqn:E; [|discriminate].
  destruct (Hinv _ _ E) as (Hlt & t & Ht & Hid). eauto 6.
Qed.

Lemma X23_in_progress_means_in_flight_witness :
  ∃ info t,
    preloading (state c_waiting) !! "a" = Some info
    ∧ (controller info < length (controllers c_waiting))%nat
    ∧ fetches c_waiting !! controller info = Some t
    ∧ id (task_item t) = "a".
Proof.
  apply (X23_in_progress_means_in_flight
           [MsgPreloadTrack track_a; MsgPreloadTrack track_b; MsgPreloadTrack track_c]
           track_a).
  reflexivity.
Defined.

(** *** Batches *)

Lemma preloadBatch_run tracks w :
  fst (preloadBatch tracks w) = run (List.map MsgPreloadTrack tracks) w
  ∧ length (snd (preloadBatch tracks w)) = length tracks.
Proof.
  revert w. induction tracks as [|track rest IH]; intros w; [split; reflexivity|].
  simpl. destruct (preloadTrack track w) as [w1 r] eqn:E.
  destruct (preloadBatch rest w1) as [w2 rs] eqn:B. simpl.
  specialize (IH w1). rewrite B in IH. simpl in IH. destruct IH as [-> ->].
  split; reflexivity.
Qed.

(** X24.  [preloadBatch] answers one reply per track and has the effect of
    the tracks sent one by one; so a batch of any size keeps the counter
    within the ceiling and leaves no track waiting while a slot is free. *)
Theorem X24_batch_is_bounded_by_the_ceiling tracks w :
  currentPreloads (state w) ≤ maxConcurrent (state w) →
  (preloadQueue (state w) = [] ∨ maxConcurrent (state w) ≤ currentPreloads (state w)) →
  let w' := fst (preloadBatch tracks w) in
  length (snd (preloadBatch tracks w)) = length tracks
  ∧ w' = run (List.map MsgPreloadTrack tracks) w
  ∧ currentPreloads (state w') ≤ maxConcurrent (state w')
  ∧ (preloadQueue (state w') = []
     ∨ maxConcurrent (state w') = currentPreloads (state w')).
Proof.
  intros Hceil Hwork w'. subst w'.
  destruct (preloadBatch_run tracks w) as [Hrun Hlen]. rewrite Hrun.
  assert (Hevs : forallb (λ ev, negb (is_set_network ev))
                         (List.map MsgPreloadTrack tracks) = true).
  { clear. induction tracks; [reflexivity|exact IHtracks]. }
  pose proof (run_ceiling _ w Hevs Hceil) as H1. unfold within_ceiling in H1.
  assert (H2 : work_conserving (run (List.map MsgPreloadTrack tracks) w)).
  { clear -Hevs Hwork. revert w Hwork Hevs.
    induction (List.map MsgPreloadTrack tracks) as [|ev evs IH];
      intros w Hwork Hevs; [exact Hwork|].
    simpl in Hevs. apply andb_true_iff in Hevs as [Hev Hevs].
    apply negb_true_iff in Hev. apply (IH _ (step_work_conserving _ _ Hev Hwork) Hevs). }
  split; [exact Hlen|]. split; [reflexivity|]. split; [exact H1|].
  destruct H2 as [H2|H2]; [left; exact H2|right; lia].
Qed.

Lemma X24_batch_is_bounded_by_the_ceiling_witness :
  currentPreloads (state (fst (preloadBatch [track_a; track_b; track_c] initial_world)))
  ≤ maxConcurrent (state (fst (preloadBatch [track_a; track_b; track_c] initial_world))).
Proof.
  apply (X24_batch_is_bounded_by_the_ceiling [track_a; track_b; track_c] initial_world).
  - simpl. lia.
  - left. reflexivity.
Defined.

(** *** [INIT] and the ceiling *)

(** [initialize] sets the ceiling without looking at the counter: with two
    requests in flight a ceiling of 1 is under them. *)
Lemma initialize_can_undercut_requests_in_flight :
  let w := initialize (mkConfig (Some 1) None None) None c_waiting in
  size (fetches w) = 2%nat ∧ maxConcurrent (state w) = 1.
Proof. vm_compute. split; reflexivity. Qed.

(** [initialize] does not call [processQueue]: a higher ceiling leaves the
    waiting item where it is, with slots free. *)
Lemma initialize_can_leave_an_item_waiting :
  let w := initialize (mkConfig (Some 5) None None) None c_waiting in
  List.map id (preloadQueue (state w)) = ["c"]
  ∧ currentPreloads (state w) = 2
  ∧ maxConcurrent (state w) = 5.
Proof. vm_compute. repeat split; reflexivity. Qed.

End MediaWorkerExtras.
